(** * youtube_transcript_api/_api.py : the public entry points

    A shallow embedding of the class [YouTubeTranscriptApi]
    (list_transcripts, get_transcripts, get_transcript, _load_cookies)
    together with the transcript catalog it drives.

    Python values are an inductive type, exceptions a second one, and
    every method that touches the file system or the network is a
    function from a world to an outcome and a new world. *)

From Stdlib Require Import ZArith Ascii String List Bool.
From stdpp Require Import base option list strings gmap.
Import ListNotations.
Local Open Scope string_scope.
Local Open Scope list_scope.

(** ** Python values *)

(** The values a caller can hand to the entry points as [video_id] or
    [video_ids]. *)
#[warnings="-register-all"]
Inductive pyval : Type :=
| PyNone
| PyBool (b : bool)
| PyInt (n : Z)
| PyStr (s : string)
| PyTuple (items : list pyval)
| PyList (items : list pyval).

Definition pyval_eq_dec : forall a b : pyval, {a = b} + {a <> b}.
Proof.
  fix IH 1.
  decide equality; try (apply List.list_eq_dec; exact IH).
  - apply Bool.bool_dec.
  - apply Z.eq_dec.
  - apply String.string_dec.
Defined.

#[global] Instance pyval_eq_decision : EqDecision pyval := pyval_eq_dec.

(** [isinstance(v, str)] *)
Definition isinstance_str (v : pyval) : bool :=
  match v with PyStr _ => true | _ => false end.

(** [isinstance(v, list)] *)
Definition isinstance_list (v : pyval) : bool :=
  match v with PyList _ => true | _ => false end.

(** ** Exceptions *)

(** What the standard library (open, http.cookiejar, requests) can raise.
    These classes exist independently of this package. *)
Inductive builtin_exn : Type :=
| FileNotFoundError
| LoadError
| PermissionError
| IsADirectoryError
| UnicodeDecodeError
| ConnectionError.

(** Sub-kinds of a failed retrieval, as the platform reports them. *)
Inductive retrieve_failure : Type :=
| VideoUnavailable
| TranscriptsDisabled
| TooManyRequests
| UnexpectedPageStructure
| UnparsableTranscript.

(** Instances of Python's [Exception] class: the values that
    [except Exception] intercepts.  [AssertionError] carries its message,
    the package's own errors carry the video id.  The subclasses of
    BaseException outside [Exception] (KeyboardInterrupt, SystemExit) are
    signals to the interpreter, not results of a retrieval, and are left
    out. *)
Inductive exn : Type :=
| Builtin (b : builtin_exn)
| AssertionError (msg : string)
| CookiePathInvalid (video_id : pyval)
| CookiesInvalid (video_id : pyval)
| NoTranscriptFound (video_id : pyval) (requested available : list string)
| NotTranslatable
| TranslationLanguageNotAvailable
| CouldNotRetrieveTranscript (video_id : pyval) (kind : retrieve_failure).

(** [CookieLoadError = (FileNotFoundError, cookiejar.LoadError)] *)
Definition CookieLoadError (b : builtin_exn) : bool :=
  match b with
  | FileNotFoundError | LoadError => true
  | _ => false
  end.

(** The result of running a piece of Python code: it returns or it raises. *)
Inductive outcome (A : Type) : Type :=
| Return (v : A)
| Raise (e : exn).
Arguments Return {A} v.
Arguments Raise {A} e.

Definition raises {A} (o : outcome A) : Prop :=
  match o with Raise _ => True | Return _ => False end.

(** ** The HTTP session *)

Definition cookie_jar : Type := list (string * string).

(** [verify] is a bool or the path of a CA bundle. *)
Inductive verify_setting : Type :=
| VerifyBool (b : bool)
| VerifyPath (ca_bundle : string).

Record Session : Type := mkSession {
  session_cookies : cookie_jar;
  session_proxies : gmap string string;
  session_verify : verify_setting
}.

(** [requests.Session()]: no cookies, no proxies, certificates verified. *)
Definition new_Session : Session :=
  {| session_cookies := []; session_proxies := ∅; session_verify := VerifyBool true |}.

Definition set_cookies (jar : cookie_jar) (s : Session) : Session :=
  {| session_cookies := jar; session_proxies := session_proxies s;
     session_verify := session_verify s |}.

Definition set_proxies (p : gmap string string) (s : Session) : Session :=
  {| session_cookies := session_cookies s; session_proxies := p;
     session_verify := session_verify s |}.

Definition set_verify (v : verify_setting) (s : Session) : Session :=
  {| session_cookies := session_cookies s; session_proxies := session_proxies s;
     session_verify := v |}.

(** Truth value of the optional [cookies] argument: [None] and the empty
    string are false. *)
Definition cookies_truthy (cookies : option string) : option string :=
  match cookies with
  | Some p => if String.eqb p "" then None else Some p
  | None => None
  end.

(** Truth value of the optional [proxies] argument: [None] and the empty
    dict are false. *)
Definition proxies_truthy (proxies : option (gmap string string)) : bool :=
  match proxies with
  | Some m => negb (bool_decide (m = ∅))
  | None => false
  end.

(** Truth value of a cookie jar: its [__len__] is not zero. *)
Definition jar_truthy (jar : cookie_jar) : bool :=
  match jar with [] => false | _ :: _ => true end.

(** ** The transcript catalog (_transcripts.py) *)

(** Modelled from the spec: the Transcript Descriptor of _transcripts.py,
    which is not part of the sources at hand.  Its fields are those of the
    data model: language code and name, origin, translatability, the
    (code, name) pairs it can be translated into, and the fetch URL
    template with the translation target of the fetch, if any. *)
Record Descriptor : Type := mkDescriptor {
  language_code : string;
  language : string;
  is_generated : bool;
  is_translatable : bool;
  translation_languages : list (string * string);
  url : string;
  translation_target : option string
}.

(** Modelled from the spec: the Transcript Catalog of _transcripts.py, the
    video id and the Descriptors in the order the platform lists them. *)
Record TranscriptList : Type := mkTranscriptList {
  catalog_video_id : pyval;
  descriptors : list Descriptor
}.

(** Modelled from the spec: the origins a search may be restricted to
    (manual only, generated only, or either). *)
Inductive origins : Type := ManualOnly | GeneratedOnly | EitherOrigin.

(** Modelled from the spec: whether a Descriptor is of an origin the
    search is restricted to. *)
Definition allowed (o : origins) (d : Descriptor) : bool :=
  match o with
  | ManualOnly => negb (is_generated d)
  | GeneratedOnly => is_generated d
  | EitherOrigin => true
  end.

(** Modelled from the spec: the primary subtag of a language code, the
    part before the region ("en" for "en-US"). *)
Fixpoint primary_subtag (code : string) : string :=
  match code with
  | EmptyString => EmptyString
  | String c rest =>
      if Ascii.eqb c "-"%char then EmptyString else String c (primary_subtag rest)
  end.

(** Modelled from the spec: an exact language_code match. *)
Definition exact_match (code : string) (d : Descriptor) : bool :=
  String.eqb (language_code d) code.

(** Modelled from the spec: a match of the primary subtag, ignoring the
    region. *)
Definition subtag_match (code : string) (d : Descriptor) : bool :=
  String.eqb (primary_subtag (language_code d)) (primary_subtag code).

(** Modelled from the spec: the search for one requested code among the
    Descriptors of the allowed origins, manual preferred over generated,
    the platform's order breaking ties. *)
Definition search (matches : string -> Descriptor -> bool) (o : origins)
    (ds : list Descriptor) (code : string) : option Descriptor :=
  match List.find (fun d => allowed o d && negb (is_generated d) && matches code d) ds with
  | Some d => Some d
  | None => List.find (fun d => allowed o d && is_generated d && matches code d) ds
  end.

(** Modelled from the spec: one pass over the requested codes in the
    caller's priority order; the first code with a match wins. *)
Fixpoint scan (matches : string -> Descriptor -> bool) (o : origins)
    (ds : list Descriptor) (requested_languages : list string) : option Descriptor :=
  match requested_languages with
  | [] => None
  | code :: rest =>
      match search matches o ds code with
      | Some d => Some d
      | None => scan matches o ds rest
      end
  end.

(** Modelled from the spec: find_transcript(requested_languages,
    allowed_origins) of _transcripts.py (section 4.2).  The exact pass runs
    over all requested codes before the primary-subtag pass starts; when
    both passes find nothing the failure carries the language codes of the
    Catalog. *)
Definition find_transcript_in (o : origins) (catalog : TranscriptList)
    (requested_languages : list string) : outcome Descriptor :=
  match scan exact_match o (descriptors catalog) requested_languages with
  | Some d => Return d
  | None =>
      match scan subtag_match o (descriptors catalog) requested_languages with
      | Some d => Return d
      | None =>
          Raise (NoTranscriptFound (catalog_video_id catalog) requested_languages
                   (List.map language_code (descriptors catalog)))
      end
  end.

(** Modelled from the spec: the three entry points of the Catalog of
    _transcripts.py, which fix the allowed origins. *)
Definition find_transcript := find_transcript_in EitherOrigin.

(** Modelled from the spec: the search restricted to manual origin. *)
Definition find_manually_created_transcript := find_transcript_in ManualOnly.

(** Modelled from the spec: the search restricted to generated origin. *)
Definition find_generated_transcript := find_transcript_in GeneratedOnly.

(** Modelled from the spec: translate(target_language_code) of
    _transcripts.py (section 4.3).  The source Descriptor is a value and is
    not touched; the result fetches the translated variant. *)
Definition translate (d : Descriptor) (target_language_code : string)
    : outcome Descriptor :=
  if negb (is_translatable d) then Raise NotTranslatable
  else if negb (List.existsb (fun p => String.eqb (fst p) target_language_code)
                  (translation_languages d))
  then Raise TranslationLanguageNotAvailable
  else Return {| language_code := language_code d;
                 language := language d;
                 is_generated := is_generated d;
                 is_translatable := false;
                 translation_languages := [];
                 url := url d;
                 translation_target := Some target_language_code |}.

(** ** Worlds, events and the monad of the entry points *)

(** What a run does to the outside: one loop iteration of get_transcripts
    starting on an id, a cookie file being read, the catalog of a video
    being requested through a session, a caption payload being requested. *)
Inductive event : Type :=
| EvAttempt (video_id : pyval)
| EvLoadCookies (path : string)
| EvListFetch (http_client : Session) (video_id : pyval)
| EvTranscriptFetch (d : Descriptor) (preserve_formatting : bool).

Definition attempts (l : list event) : list pyval :=
  List.flat_map (fun ev => match ev with EvAttempt v => [v] | _ => [] end) l.

Definition list_fetches (l : list event) : list (Session * pyval) :=
  List.flat_map (fun ev => match ev with EvListFetch s v => [(s, v)] | _ => [] end) l.

Definition cookie_loads (l : list event) : list string :=
  List.flat_map (fun ev => match ev with EvLoadCookies p => [p] | _ => [] end) l.

Definition transcript_fetches (l : list event) : list (Descriptor * bool) :=
  List.flat_map
    (fun ev => match ev with EvTranscriptFetch d pf => [(d, pf)] | _ => [] end) l.

Section Api.

(** The state of the file system and of the network, and the parsed
    cues a fetch yields; both are opaque to _api.py. *)
Context {Env Cues : Type}.

(** A world is that state and the events so far, oldest first. *)
Record world : Type := mkWorld { env : Env; log : list event }.

Definition record (ev : event) (w : world) : world :=
  {| env := env w; log := log w ++ [ev] |}.

Definition M (A : Type) : Type := world -> outcome A * world.

Definition ret {A} (v : A) : M A := fun w => (Return v, w).

Definition raise {A} (e : exn) : M A := fun w => (Raise e, w).

Definition bind {A B} (m : M A) (k : A -> M B) : M B :=
  fun w =>
    match m w with
    | (Return v, w') => k v w'
    | (Raise e, w') => (Raise e, w')
    end.

(** [try: m except: h] *)
Definition try_except {A} (m : M A) (h : exn -> M A) : M A :=
  fun w =>
    match m w with
    | (Return v, w') => (Return v, w')
    | (Raise e, w') => h e w'
    end.

Definition lift {A} (o : outcome A) : M A := fun w => (o, w).

(** [assert cond, msg], with assertions executed ([__debug__] is true, as
    it is unless the interpreter runs with -O). *)
Definition assert_ (cond : bool) (msg : string) : M unit :=
  if cond then ret tt else raise (AssertionError msg).

Notation "x <- m ;; k" := (bind m (fun x => k))
  (at level 100, m at next level, right associativity).

(** *** The collaborators *)

(** [MozillaCookieJar().load(path)]: the jar read from the file, or the
    standard-library exception the load raises. *)
Variable MozillaCookieJar_load : string -> Env -> builtin_exn + cookie_jar.

(** [TranscriptListFetcher(http_client).fetch(video_id)] of
    _transcripts.py: page fetch, page parsing and catalog construction. *)
Variable TranscriptListFetcher_fetch :
  Session -> pyval -> Env -> outcome TranscriptList * Env.

(** [Transcript.fetch(preserve_formatting=...)] of _transcripts.py:
    payload fetch and cue parsing. *)
Variable Transcript_fetch : Descriptor -> bool -> Env -> outcome Cues * Env.

Definition cookie_jar_load (path : string) : M cookie_jar :=
  fun w =>
    (match MozillaCookieJar_load path (env w) with
     | inl b => Raise (Builtin b)
     | inr jar => Return jar
     end, record (EvLoadCookies path) w).

Definition fetcher_fetch (http_client : Session) (video_id : pyval)
    : M TranscriptList :=
  fun w =>
    let (r, e') := TranscriptListFetcher_fetch http_client video_id (env w) in
    (r, {| env := e'; log := log w ++ [EvListFetch http_client video_id] |}).

Definition fetch (t : Descriptor) (preserve_formatting : bool) : M Cues :=
  fun w =>
    let (r, e') := Transcript_fetch t preserve_formatting (env w) in
    (r, {| env := e'; log := log w ++ [EvTranscriptFetch t preserve_formatting] |}).

(** *** class YouTubeTranscriptApi *)

(** _api.py, lines 170-179. *)
Definition _load_cookies (cookies : string) (video_id : pyval) : M cookie_jar :=
  try_except
    (cookie_jar <- cookie_jar_load cookies ;;
     if negb (jar_truthy cookie_jar) then raise (CookiesInvalid video_id)
     else ret cookie_jar)
    (fun e =>
       match e with
       | Builtin b =>
           if CookieLoadError b then raise (CookiePathInvalid video_id) else raise e
       | _ => raise e
       end).

(** _api.py, lines 69-76. *)
Definition list_transcripts (video_id : pyval)
    (proxies : option (gmap string string)) (cookies : option string)
    (verify : option verify_setting) : M TranscriptList :=
  let http_client := new_Session in
  http_client <-
    match cookies_truthy cookies with
    | Some path =>
        jar <- _load_cookies path video_id ;; ret (set_cookies jar http_client)
    | None => ret http_client
    end ;;
  let http_client :=
    set_proxies (if proxies_truthy proxies then default ∅ proxies else ∅) http_client in
  let http_client :=
    match verify with
    | Some v => set_verify v http_client
    | None => http_client
    end in
  fetcher_fetch http_client video_id.

(** _api.py, lines 163-168. *)
Definition get_transcript (video_id : pyval) (languages : list string)
    (proxies : option (gmap string string)) (cookies : option string)
    (preserve_formatting : bool) (verify : option verify_setting) : M Cues :=
  _ <- assert_ (isinstance_str video_id) "`video_id` must be a string" ;;
  transcript_list <- list_transcripts video_id proxies cookies verify ;;
  transcript <- lift (find_transcript transcript_list languages) ;;
  fetch transcript preserve_formatting.

(** The dictionary [data]: keys in insertion order, an assignment to a
    key that is present replaces its value in place.  Only strings ever
    become keys (get_transcript returns on nothing else), and on strings
    the equality of keys is the equality of [pyval]. *)
Definition dict : Type := list (pyval * Cues).

Fixpoint dict_setitem (k : pyval) (v : Cues) (d : dict) : dict :=
  match d with
  | [] => [(k, v)]
  | (k', v') :: rest =>
      if decide (k' = k) then (k, v) :: rest else (k', v') :: dict_setitem k v rest
  end.

Definition dict_keys (d : dict) : list pyval := List.map fst d.

(** [data.get(k)] *)
Fixpoint dict_get (k : pyval) (d : dict) : option Cues :=
  match d with
  | [] => None
  | (k', v') :: rest => if decide (k' = k) then Some v' else dict_get k rest
  end.

(** _api.py, lines 118-129: the for loop and the return. *)
Fixpoint get_transcripts_loop (video_ids : list pyval) (languages : list string)
    (continue_after_error : bool) (proxies : option (gmap string string))
    (cookies : option string) (preserve_formatting : bool)
    (verify : option verify_setting)
    (data : dict) (unretrievable_videos : list pyval)
    : M (dict * list pyval) :=
  match video_ids with
  | [] => ret (data, unretrievable_videos)
  | video_id :: rest =>
      fun w =>
        match get_transcript video_id languages proxies cookies
                preserve_formatting verify (record (EvAttempt video_id) w) with
        | (Return transcript, w') =>
            get_transcripts_loop rest languages continue_after_error proxies
              cookies preserve_formatting verify
              (dict_setitem video_id transcript data) unretrievable_videos w'
        | (Raise exception, w') =>
            if negb continue_after_error then (Raise exception, w')
            else
              get_transcripts_loop rest languages continue_after_error proxies
                cookies preserve_formatting verify
                data (unretrievable_videos ++ [video_id]) w'
        end
  end.

(** The ids whose retrieval raises when the ids are retrieved one after
    the other, starting in [w]; in the order of the input. *)
Fixpoint failing_ids (video_ids : list pyval) (languages : list string)
    (proxies : option (gmap string string)) (cookies : option string)
    (preserve_formatting : bool) (verify : option verify_setting)
    (w : world) : list pyval :=
  match video_ids with
  | [] => []
  | video_id :: rest =>
      match get_transcript video_id languages proxies cookies
              preserve_formatting verify (record (EvAttempt video_id) w) with
      | (Return _, w') =>
          failing_ids rest languages proxies cookies preserve_formatting verify w'
      | (Raise _, w') =>
          video_id ::
          failing_ids rest languages proxies cookies preserve_formatting verify w'
      end
  end.

(** _api.py, lines 113-129.  The last branch only completes the match:
    the assertion has raised before it can run. *)
Definition get_transcripts (video_ids : pyval) (languages : list string)
    (continue_after_error : bool) (proxies : option (gmap string string))
    (cookies : option string) (preserve_formatting : bool)
    (verify : option verify_setting) : M (dict * list pyval) :=
  _ <- assert_ (isinstance_list video_ids) "`video_ids` must be a list of strings" ;;
  match video_ids with
  | PyList items =>
      get_transcripts_loop items languages continue_after_error proxies cookies
        preserve_formatting verify [] []
  | _ => ret ([], [])
  end.

(** A call site may leave keyword parameters out: [None] stands for an
    omitted argument and is bound to the default of the def line
    (lines 79-88 and 132-140).  [proxies], [cookies] and [verify] default
    to Python's None, which is [None] here as well. *)
Definition call_get_transcript (video_id : pyval) (languages : option (list string))
    (proxies : option (gmap string string)) (cookies : option string)
    (preserve_formatting : option bool) (verify : option verify_setting) : M Cues :=
  get_transcript video_id (default ["en"] languages) proxies cookies
    (default false preserve_formatting) verify.

Definition call_get_transcripts (video_ids : pyval) (languages : option (list string))
    (continue_after_error : option bool)
    (proxies : option (gmap string string)) (cookies : option string)
    (preserve_formatting : option bool) (verify : option verify_setting)
    : M (dict * list pyval) :=
  get_transcripts video_ids (default ["en"] languages)
    (default false continue_after_error) proxies cookies
    (default false preserve_formatting) verify.

(** The composition the docstring of get_transcript names,
    [list_transcripts(video_id, proxies, cookies, verify)
       .find_transcript(languages).fetch(preserve_formatting=...)],
    written out call by call: each call runs in the world the previous
    one left, and the first exception ends the chain. *)
Definition shortcut_composition (video_id : pyval) (languages : list string)
    (proxies : option (gmap string string)) (cookies : option string)
    (preserve_formatting : bool) (verify : option verify_setting)
    (w : world) : outcome Cues * world :=
  match list_transcripts video_id proxies cookies verify w with
  | (Raise e, w1) => (Raise e, w1)
  | (Return transcript_list, w1) =>
      match find_transcript transcript_list languages with
      | Raise e => (Raise e, w1)
      | Return transcript => fetch transcript preserve_formatting w1
      end
  end.

End Api.

(** ** A concrete world

    A small file system and platform on which the entry points can be run:
    the environment counts the requests made so far. *)

Definition demo_video : pyval := PyStr "GJLlxj_dtq8".

Definition demo_en_manual : Descriptor :=
  {| language_code := "en"; language := "English"; is_generated := false;
     is_translatable := true; translation_languages := [("de", "German")];
     url := "https://www.youtube.com/api/timedtext?v=GJLlxj_dtq8&lang=en";
     translation_target := None |}.

Definition demo_en_generated : Descriptor :=
  {| language_code := "en"; language := "English (auto-generated)";
     is_generated := true; is_translatable := false; translation_languages := [];
     url := "https://www.youtube.com/api/timedtext?v=GJLlxj_dtq8&lang=en&kind=asr";
     translation_target := None |}.

Definition demo_de_region : Descriptor :=
  {| language_code := "de-DE"; language := "German (Germany)"; is_generated := false;
     is_translatable := false; translation_languages := [];
     url := "https://www.youtube.com/api/timedtext?v=GJLlxj_dtq8&lang=de-DE";
     translation_target := None |}.

Definition demo_catalog : TranscriptList :=
  {| catalog_video_id := demo_video;
     descriptors := [demo_en_generated; demo_de_region; demo_en_manual] |}.

(** cookies.txt holds one cookie, expired.txt none that is still valid,
    garbage.txt is no cookie file, /root/cookies.txt is a cookie file the
    process may not read, /root is a directory, and no other path (the
    empty one included) names a file. *)
Definition demo_load (path : string) (e : nat) : builtin_exn + cookie_jar :=
  if String.eqb path "cookies.txt" then inr [("CONSENT", "YES+1")]
  else if String.eqb path "expired.txt" then inr []
  else if String.eqb path "garbage.txt" then inl LoadError
  else if String.eqb path "/root/cookies.txt" then inl PermissionError
  else if String.eqb path "/root" then inl IsADirectoryError
  else inl FileNotFoundError.

(** Only [demo_video] exists on the platform. *)
Definition demo_list_fetch (http_client : Session) (video_id : pyval) (e : nat)
    : outcome TranscriptList * nat :=
  if decide (video_id = demo_video) then (Return demo_catalog, S e)
  else (Raise (CouldNotRetrieveTranscript video_id VideoUnavailable), S e).

(** A platform that serves the catalog of [demo_video] for every id it is
    asked about, whatever value the id is. *)
Definition demo_list_fetch_any (http_client : Session) (video_id : pyval) (e : nat)
    : outcome TranscriptList * nat :=
  (Return demo_catalog, S e).

Definition demo_transcript_fetch (d : Descriptor) (preserve_formatting : bool) (e : nat)
    : outcome (list string) * nat :=
  (Return [language d; "Hey, this is just a test"], S e).

Definition demo_world : @world nat := {| env := 0; log := [] |}.

(** A platform whose captions change over time: payloads requested after
    the third request hold the second take. *)
Definition demo_transcript_fetch_takes (d : Descriptor) (preserve_formatting : bool)
    (e : nat) : outcome (list string) * nat :=
  (Return [language d; if Nat.ltb e 3 then "take 1" else "take 2"], S e).

(** Membership in a list that is written out. *)
Ltac split_mem H :=
  repeat (apply elem_of_cons in H as [H|H]; [subst|]);
  try (apply elem_of_nil in H; contradiction).

(** * Properties *)

(** ** The catalog: matching and translation *)

Lemma search_Some matches o ds code d :
  search matches o ds code = Some d ->
  d ∈ ds /\ allowed o d = true /\ matches code d = true.
Proof.
  unfold search. intros H.
  destruct (List.find _ ds) as [d1|] eqn:Hmanual.
  - injection H as ->. apply List.find_some in Hmanual as [Hin Hd].
    apply andb_prop in Hd as [Hd Hm]. apply andb_prop in Hd as [Ha _].
    rewrite list_elem_of_In. auto.
  - apply List.find_some in H as [Hin Hd].
    apply andb_prop in Hd as [Hd Hm]. apply andb_prop in Hd as [Ha _].
    rewrite list_elem_of_In. auto.
Qed.

Lemma search_None matches o ds code :
  search matches o ds code = None <->
  forall d, d ∈ ds -> allowed o d = true -> matches code d = false.
Proof.
  unfold search. split.
  - intros H d Hin Ha. apply list_elem_of_In in Hin.
    destruct (List.find _ ds) as [d1|] eqn:Hmanual; [discriminate|].
    pose proof (List.find_none _ _ Hmanual d Hin) as H1.
    pose proof (List.find_none _ _ H d Hin) as H2.
    cbv beta in H1, H2. rewrite Ha in H1, H2.
    destruct (is_generated d); simpl in *; assumption.
  - intros H.
    destruct (List.find _ ds) as [d1|] eqn:Hmanual.
    + apply List.find_some in Hmanual as [Hin Hd].
      apply andb_prop in Hd as [Hd Hm]. apply andb_prop in Hd as [Ha _].
      apply list_elem_of_In in Hin. rewrite (H d1 Hin Ha) in Hm. discriminate.
    + destruct (List.find (fun d => allowed o d && is_generated d && matches code d) ds)
        as [d2|] eqn:Hgen; [|reflexivity].
      apply List.find_some in Hgen as [Hin Hd].
      apply andb_prop in Hd as [Hd Hm]. apply andb_prop in Hd as [Ha _].
      apply list_elem_of_In in Hin. rewrite (H d2 Hin Ha) in Hm. discriminate.
Qed.

Lemma scan_None matches o ds requested :
  scan matches o ds requested = None <->
  forall code, code ∈ requested -> search matches o ds code = None.
Proof.
  induction requested as [|c rest IH]; simpl.
  - split; [intros _ code Hin; inversion Hin | reflexivity].
  - destruct (search matches o ds c) as [d|] eqn:Hc.
    + split; [discriminate|]. intros H.
      rewrite H in Hc by constructor. discriminate.
    + rewrite IH. split.
      * intros H code Hin. apply elem_of_cons in Hin as [->|Hin]; auto.
      * intros H code Hin. apply H. now constructor.
Qed.

(** A successful pass stops at the first requested code that has a match. *)
Lemma scan_Some matches o ds requested d :
  scan matches o ds requested = Some d ->
  exists before code after,
    requested = before ++ code :: after /\
    (forall c, c ∈ before -> search matches o ds c = None) /\
    search matches o ds code = Some d.
Proof.
  induction requested as [|c rest IH]; simpl; [discriminate|].
  destruct (search matches o ds c) as [d1|] eqn:Hc.
  - intros [= ->]. exists [], c, rest. repeat split; auto.
    intros c' Hin. inversion Hin.
  - intros H. destruct (IH H) as (before & code & after & -> & Hb & Hs).
    exists (c :: before), code, after. repeat split; auto.
    intros c' Hin. apply elem_of_cons in Hin as [->|Hin]; auto.
Qed.

Lemma exact_match_iff code d : exact_match code d = true <-> language_code d = code.
Proof. unfold exact_match. apply String.eqb_eq. Qed.

Lemma subtag_match_iff code d :
  subtag_match code d = true <->
  primary_subtag (language_code d) = primary_subtag code.
Proof. unfold subtag_match. apply String.eqb_eq. Qed.

(** The scenarios of the spec on the concrete catalog: manual is preferred
    to generated at equal rank, a bare code falls back to a regional one,
    and the exact pass is over before the subtag pass starts. *)
Example find_transcript_prefers_manual :
  find_transcript demo_catalog ["en"] = Return demo_en_manual.
Proof. reflexivity. Qed.

Example find_generated_transcript_en :
  find_generated_transcript demo_catalog ["en"] = Return demo_en_generated.
Proof. reflexivity. Qed.

Example find_transcript_subtag_fallback :
  find_transcript demo_catalog ["de"] = Return demo_de_region.
Proof. reflexivity. Qed.

Example find_transcript_exact_before_subtag :
  find_transcript demo_catalog ["de"; "en"] = Return demo_en_manual.
Proof. reflexivity. Qed.

Example translate_en_to_de :
  translate demo_en_manual "de" =
    Return {| language_code := "en"; language := "English"; is_generated := false;
              is_translatable := false; translation_languages := [];
              url := url demo_en_manual; translation_target := Some "de" |}.
Proof. reflexivity. Qed.

Example translate_twice_fails :
  translate {| language_code := "en"; language := "English"; is_generated := false;
               is_translatable := false; translation_languages := [];
               url := url demo_en_manual; translation_target := Some "de" |} "de"
  = Raise NotTranslatable.
Proof. reflexivity. Qed.

(** C4. Whenever no Descriptor of the allowed origins matches a requested
    code, neither exactly nor by primary subtag, find_transcript fails with
    the "no matching transcript found" failure, and the payload of that
    failure lists exactly the language codes of the Catalog's
    Descriptors. *)
Theorem find_transcript_no_match (o : origins) (catalog : TranscriptList)
    (requested_languages : list string) :
  (forall code d,
      code ∈ requested_languages -> d ∈ descriptors catalog -> allowed o d = true ->
      language_code d <> code /\
      primary_subtag (language_code d) <> primary_subtag code) ->
  exists available,
    find_transcript_in o catalog requested_languages =
      Raise (NoTranscriptFound (catalog_video_id catalog) requested_languages available) /\
    forall code,
      code ∈ available <-> exists d, d ∈ descriptors catalog /\ language_code d = code.
Proof.
  intros Hno. exists (List.map language_code (descriptors catalog)). split.
  - unfold find_transcript_in.
    assert (He : scan exact_match o (descriptors catalog) requested_languages = None).
    { apply scan_None. intros code Hc. apply search_None. intros d Hd Ha.
      destruct (exact_match code d) eqn:E; [|reflexivity].
      apply exact_match_iff in E. destruct (Hno code d Hc Hd Ha) as [H _]. contradiction. }
    assert (Hs : scan subtag_match o (descriptors catalog) requested_languages = None).
    { apply scan_None. intros code Hc. apply search_None. intros d Hd Ha.
      destruct (subtag_match code d) eqn:E; [|reflexivity].
      apply subtag_match_iff in E. destruct (Hno code d Hc Hd Ha) as [_ H]. contradiction. }
    rewrite He, Hs. reflexivity.
  - intros code. rewrite list_elem_of_In, List.in_map_iff.
    split; intros (d & H1 & H2).
    + exists d. rewrite list_elem_of_In. auto.
    + exists d. rewrite <- list_elem_of_In. auto.
Qed.

(** C5. Whenever some requested code has an exact language_code match
    among the allowed Descriptors, find_transcript returns an exact match:
    a Descriptor of the Catalog, of an allowed origin, whose language code
    is the first requested code that has an exact match.  No subtag match
    for an earlier requested code is returned in its place. *)
Theorem find_transcript_exact_first (o : origins) (catalog : TranscriptList)
    (requested_languages : list string) :
  (exists code d,
      code ∈ requested_languages /\ d ∈ descriptors catalog /\
      allowed o d = true /\ language_code d = code) ->
  exists d' before after,
    find_transcript_in o catalog requested_languages = Return d' /\
    d' ∈ descriptors catalog /\ allowed o d' = true /\
    requested_languages = before ++ language_code d' :: after /\
    forall c d, c ∈ before -> d ∈ descriptors catalog -> allowed o d = true ->
                language_code d <> c.
Proof.
  intros (code & d & Hc & Hd & Ha & Hl).
  unfold find_transcript_in.
  destruct (scan exact_match o (descriptors catalog) requested_languages) as [d'|] eqn:Hscan.
  - destruct (scan_Some _ _ _ _ _ Hscan) as (before & c' & after & Hreq & Hb & Hs).
    apply search_Some in Hs as (Hin & Hal & Hm). apply exact_match_iff in Hm.
    exists d', before, after. subst c'. repeat split; auto.
    intros c d0 Hcb Hd0 Ha0 Heq.
    pose proof (proj1 (search_None _ _ _ _) (Hb c Hcb) d0 Hd0 Ha0) as Hf.
    apply exact_match_iff in Heq. congruence.
  - exfalso.
    pose proof (proj1 (scan_None _ _ _ _) Hscan code Hc) as Hn.
    pose proof (proj1 (search_None _ _ _ _) Hn d Hd Ha) as Hf.
    apply exact_match_iff in Hl. congruence.
Qed.

(** C6. translate on a Descriptor that is not translatable fails with
    "not translatable"; on a translatable one it fails with "translation
    language unavailable" when the target code is not among its
    translation languages; otherwise it returns a Descriptor that is not
    translatable, has no translation languages and has the origin of the
    source.  The source Descriptor is a value: nothing can change it. *)
Theorem translate_cases (d : Descriptor) (code : string) :
  (is_translatable d = false -> translate d code = Raise NotTranslatable) /\
  (is_translatable d = true ->
   code ∉ List.map fst (translation_languages d) ->
   translate d code = Raise TranslationLanguageNotAvailable) /\
  (is_translatable d = true ->
   code ∈ List.map fst (translation_languages d) ->
   exists d', translate d code = Return d' /\
              is_translatable d' = false /\
              translation_languages d' = [] /\
              is_generated d' = is_generated d).
Proof.
  unfold translate. repeat split.
  - intros ->. reflexivity.
  - intros -> Hnot. simpl.
    destruct (List.existsb _ _) eqn:E; [|reflexivity].
    exfalso. apply Hnot. apply List.existsb_exists in E as ([c n] & Hin & Heq).
    simpl in Heq. apply String.eqb_eq in Heq. subst c.
    rewrite list_elem_of_In, List.in_map_iff. exists (code, n). auto.
  - intros -> Hin. simpl.
    destruct (List.existsb _ _) eqn:E.
    + simpl. eexists. repeat split; reflexivity.
    + exfalso. rewrite list_elem_of_In, List.in_map_iff in Hin.
      destruct Hin as ([c n] & Hfst & Hin). simpl in Hfst. subst c.
      assert (H : List.existsb (fun p : string * string => (fst p =? code)%string)
                    (translation_languages d) = true).
      { apply List.existsb_exists. exists (code, n). split; [assumption|].
        simpl. apply String.eqb_refl. }
      congruence.
Qed.

(** ** The entry points *)

Lemma attempts_app l1 l2 : attempts (l1 ++ l2) = attempts l1 ++ attempts l2.
Proof. unfold attempts. apply List.flat_map_app. Qed.

Lemma list_fetches_app l1 l2 :
  list_fetches (l1 ++ l2) = list_fetches l1 ++ list_fetches l2.
Proof. unfold list_fetches. apply List.flat_map_app. Qed.

Section ApiFacts.

Context {Env Cues : Type}.
Variable load : string -> Env -> builtin_exn + cookie_jar.
Variable list_fetch : Session -> pyval -> Env -> outcome TranscriptList * Env.
Variable transcript_fetch : Descriptor -> bool -> Env -> outcome Cues * Env.

Abbreviation _load_cookies' := (_load_cookies load).
Abbreviation list_transcripts' := (list_transcripts load list_fetch).
Abbreviation get_transcript' := (get_transcript load list_fetch transcript_fetch).
Abbreviation get_transcripts' := (get_transcripts load list_fetch transcript_fetch).
Abbreviation get_transcripts_loop' :=
  (get_transcripts_loop load list_fetch transcript_fetch).

(** *** _load_cookies *)

(** What _load_cookies does, by the outcome of the load. *)
Lemma _load_cookies_run (cookies : string) (video_id : pyval) (w : world) :
  _load_cookies' cookies video_id w =
    (match load cookies (env w) with
     | inl b =>
         if CookieLoadError b then Raise (CookiePathInvalid video_id)
         else Raise (Builtin b)
     | inr jar =>
         if jar_truthy jar then Return jar else Raise (CookiesInvalid video_id)
     end, record (EvLoadCookies cookies) w).
Proof.
  unfold _load_cookies, try_except, bind, cookie_jar_load, raise, ret.
  destruct (load cookies (env w)) as [b|jar].
  - destruct (CookieLoadError b); reflexivity.
  - destruct (jar_truthy jar); reflexivity.
Qed.

(** A load that fails with any other exception (an unreadable file, a
    directory) is not handled: the exception reaches the caller as it is. *)
Lemma load_cookies_other_failure (cookies : string) (video_id : pyval) (w : world) b :
  load cookies (env w) = inl b -> CookieLoadError b = false ->
  fst (_load_cookies' cookies video_id w) = Raise (Builtin b).
Proof.
  intros Hl Hb. rewrite _load_cookies_run. simpl. rewrite Hl, Hb. reflexivity.
Qed.

(** C3, as the code has it.  _load_cookies raises CookiePathInvalid
    exactly when the load raises FileNotFoundError or LoadError (file
    missing or malformed), raises CookiesInvalid exactly when the file
    loads into an empty jar, and returns a jar exactly when the file loads
    into that jar and it holds a cookie.  The two failure kinds are never
    raised for one another. *)
Theorem load_cookies_cases (cookies : string) (video_id : pyval) (w : world) :
  let r := fst (_load_cookies' cookies video_id w) in
  (r = Raise (CookiePathInvalid video_id) <->
   exists b, load cookies (env w) = inl b /\ CookieLoadError b = true) /\
  (r = Raise (CookiesInvalid video_id) <-> load cookies (env w) = inr []) /\
  (forall jar, r = Return jar <-> load cookies (env w) = inr jar /\ jar <> []).
Proof.
  rewrite _load_cookies_run. simpl.
  destruct (load cookies (env w)) as [b|jar].
  - destruct (CookieLoadError b) eqn:Hb.
    + split; [|split].
      * split; [intros _; exists b; auto | reflexivity].
      * split; discriminate.
      * intros jar. split; [discriminate | intros [H _]; discriminate].
    + split; [|split].
      * split; [discriminate | intros (b' & [= <-] & H); congruence].
      * split; discriminate.
      * intros jar. split; [discriminate | intros [H _]; discriminate].
  - destruct jar as [|c jar]; simpl.
    + split; [|split].
      * split; [discriminate | intros (b & H & _); discriminate].
      * split; reflexivity.
      * intros jar. split; [discriminate | intros [[= <-] H]; contradiction].
    + split; [|split].
      * split; [discriminate | intros (b & H & _); discriminate].
      * split; discriminate.
      * intros jar'. split; [intros [= <-]; split; [reflexivity | discriminate]
                           | intros [[= <-] _]; reflexivity].
Qed.

(** *** list_transcripts *)

Lemma proxies_or_empty (proxies : option (gmap string string)) :
  (if proxies_truthy proxies then default ∅ proxies else ∅) = default ∅ proxies.
Proof.
  destruct proxies as [m|]; simpl; [|reflexivity].
  case_bool_decide; simpl; congruence.
Qed.

(** list_transcripts, by the outcome of the cookie load. *)
Lemma list_transcripts_run video_id proxies cookies verify (w : world) :
  list_transcripts' video_id proxies cookies verify w =
    match cookies_truthy cookies with
    | Some path =>
        match _load_cookies' path video_id w with
        | (Return jar, w1) =>
            fetcher_fetch list_fetch
              {| session_cookies := jar; session_proxies := default ∅ proxies;
                 session_verify := default (VerifyBool true) verify |} video_id w1
        | (Raise e, w1) => (Raise e, w1)
        end
    | None =>
        fetcher_fetch list_fetch
          {| session_cookies := []; session_proxies := default ∅ proxies;
             session_verify := default (VerifyBool true) verify |} video_id w
    end.
Proof.
  unfold list_transcripts, bind, ret. rewrite proxies_or_empty.
  destruct (cookies_truthy cookies) as [path|].
  - destruct (_load_cookies' path video_id w) as [[jar|e] w1]; [|reflexivity].
    destruct verify; reflexivity.
  - destruct verify; reflexivity.
Qed.

Lemma fetcher_fetch_log http_client video_id (w : world) :
  log (snd (fetcher_fetch list_fetch http_client video_id w)) =
    log w ++ [EvListFetch http_client video_id].
Proof.
  unfold fetcher_fetch. destruct (list_fetch http_client video_id (env w)). reflexivity.
Qed.


(** *** get_transcript *)

Abbreviation shortcut_composition' :=
  (shortcut_composition load list_fetch transcript_fetch).
Abbreviation call_get_transcript' :=
  (call_get_transcript load list_fetch transcript_fetch).
Abbreviation call_get_transcripts' :=
  (call_get_transcripts load list_fetch transcript_fetch).

(** On a string the assertion passes and the body runs. *)
Lemma get_transcript_str (s : string) languages proxies cookies
    preserve_formatting verify (w : world) :
  get_transcript' (PyStr s) languages proxies cookies preserve_formatting verify w =
  shortcut_composition' (PyStr s) languages proxies cookies preserve_formatting verify w.
Proof.
  unfold get_transcript, shortcut_composition, assert_, bind, ret, lift. simpl.
  destruct (list_transcripts' (PyStr s) proxies cookies verify w) as [[tl|e] w1];
    [|reflexivity].
  destruct (find_transcript tl languages); reflexivity.
Qed.

(** On anything else the assertion fails and the world is not touched. *)
Lemma get_transcript_not_str video_id languages proxies cookies
    preserve_formatting verify (w : world) :
  isinstance_str video_id = false ->
  get_transcript' video_id languages proxies cookies preserve_formatting verify w =
  (Raise (AssertionError "`video_id` must be a string"), w).
Proof.
  intros H. unfold get_transcript, assert_, bind, raise. rewrite H. reflexivity.
Qed.

(** C2, as the code has it.  On every string video id, and for all
    languages, proxies, cookies, preserve_formatting and verify,
    get_transcript gives what the composition
    list_transcripts(video_id, proxies, cookies, verify)
    .find_transcript(languages).fetch(preserve_formatting=...) gives: the
    same value or the same exception, leaving the same world; so one
    raises exactly when the other does. *)
Theorem get_transcript_is_shortcut (s : string) (languages : list string)
    (proxies : option (gmap string string)) (cookies : option string)
    (preserve_formatting : bool) (verify : option verify_setting) (w : world) :
  get_transcript' (PyStr s) languages proxies cookies preserve_formatting verify w =
    shortcut_composition' (PyStr s) languages proxies cookies preserve_formatting verify w
  /\
  (raises (fst (get_transcript' (PyStr s) languages proxies cookies
                  preserve_formatting verify w)) <->
   raises (fst (shortcut_composition' (PyStr s) languages proxies cookies
                  preserve_formatting verify w))).
Proof.
  split.
  - apply get_transcript_str.
  - rewrite get_transcript_str. reflexivity.
Qed.

(** C7. A call of get_transcript or get_transcripts that omits languages
    and preserve_formatting runs with the one-entry sequence "en" and with
    preserve_formatting false. *)
Theorem omitted_parameters_take_defaults (video_id video_ids : pyval)
    (continue_after_error : option bool)
    (proxies : option (gmap string string)) (cookies : option string)
    (verify : option verify_setting) :
  call_get_transcript' video_id None proxies cookies None verify =
    get_transcript' video_id ["en"] proxies cookies false verify
  /\
  call_get_transcripts' video_ids None continue_after_error proxies cookies None verify =
    get_transcripts' video_ids ["en"] (default false continue_after_error)
      proxies cookies false verify.
Proof. split; reflexivity. Qed.

(** C10. get_transcript on a video_id that is not a string raises the
    assertion failure and leaves the world as it was: no cookie file is
    read and no request is made.  get_transcripts on video_ids that is not
    a list raises its assertion failure in the same way.  On a string,
    get_transcript is its body; on a list, get_transcripts is its loop
    started on the empty dictionary and the empty list. *)
Theorem assertions_guard_argument_types (video_id video_ids : pyval)
    (languages : list string) (continue_after_error : bool)
    (proxies : option (gmap string string)) (cookies : option string)
    (preserve_formatting : bool) (verify : option verify_setting) (w : world) :
  (if isinstance_str video_id
   then get_transcript' video_id languages proxies cookies preserve_formatting verify w =
        shortcut_composition' video_id languages proxies cookies
          preserve_formatting verify w
   else get_transcript' video_id languages proxies cookies preserve_formatting verify w =
        (Raise (AssertionError "`video_id` must be a string"), w))
  /\
  (if isinstance_list video_ids
   then exists items,
        video_ids = PyList items /\
        get_transcripts' video_ids languages continue_after_error proxies cookies
          preserve_formatting verify w =
        get_transcripts_loop' items languages continue_after_error proxies cookies
          preserve_formatting verify [] [] w
   else get_transcripts' video_ids languages continue_after_error proxies cookies
          preserve_formatting verify w =
        (Raise (AssertionError "`video_ids` must be a list of strings"), w)).
Proof.
  split.
  - destruct (isinstance_str video_id) eqn:E.
    + destruct video_id; try discriminate. apply get_transcript_str.
    + apply get_transcript_not_str. exact E.
  - destruct video_ids; simpl; try reflexivity.
    eexists. split; reflexivity.
Qed.

(** *** get_transcripts *)

(** Neither list_transcripts nor get_transcript starts a loop iteration:
    what they add to the log holds no attempt. *)
Lemma list_transcripts_attempts video_id proxies cookies verify (w : world) r w' :
  list_transcripts' video_id proxies cookies verify w = (r, w') ->
  exists new, log w' = log w ++ new /\ attempts new = [].
Proof.
  rewrite list_transcripts_run.
  assert (Hfetch : forall s0 (w0 : world) pre,
    log w0 = log w ++ pre -> attempts pre = [] ->
    fetcher_fetch list_fetch s0 video_id w0 = (r, w') ->
    exists new, log w' = log w ++ new /\ attempts new = []).
  { intros s0 w0 pre Hpre Hatt H.
    pose proof (fetcher_fetch_log s0 video_id w0) as Hlog.
    rewrite H in Hlog. simpl in Hlog.
    exists (pre ++ [EvListFetch s0 video_id]). split.
    - rewrite Hlog, Hpre, List.app_assoc. reflexivity.
    - rewrite attempts_app, Hatt. reflexivity. }
  destruct (cookies_truthy cookies) as [path|].
  - rewrite _load_cookies_run.
    destruct (load path (env w)) as [b|jar].
    + destruct (CookieLoadError b); intros [= <- <-];
        exists [EvLoadCookies path]; split; reflexivity.
    + destruct (jar_truthy jar).
      * apply (Hfetch _ _ [EvLoadCookies path]); reflexivity.
      * intros [= <- <-]. exists [EvLoadCookies path]. split; reflexivity.
  - apply (Hfetch _ _ []); [rewrite List.app_nil_r|]; reflexivity.
Qed.

Lemma get_transcript_attempts video_id languages proxies cookies
    preserve_formatting verify (w : world) r w' :
  get_transcript' video_id languages proxies cookies preserve_formatting verify w
    = (r, w') ->
  exists new, log w' = log w ++ new /\ attempts new = [].
Proof.
  destruct (isinstance_str video_id) eqn:E.
  - destruct video_id; try discriminate.
    rewrite get_transcript_str. unfold shortcut_composition.
    destruct (list_transcripts' (PyStr s) proxies cookies verify w) as [[tl|e] w1] eqn:Hl;
      apply list_transcripts_attempts in Hl as (new1 & Hlog1 & Hatt1).
    + destruct (find_transcript tl languages) as [t|e].
      * unfold fetch. destruct (transcript_fetch t preserve_formatting (env w1)) as [r0 e0].
        intros [= <- <-]. simpl. rewrite Hlog1.
        exists (new1 ++ [EvTranscriptFetch t preserve_formatting]).
        split; [rewrite List.app_assoc; reflexivity|].
        rewrite attempts_app, Hatt1. reflexivity.
      * intros [= <- <-]. exists new1. auto.
    + intros [= <- <-]. exists new1. auto.
  - rewrite get_transcript_not_str by exact E.
    intros [= <- <-]. exists []. split; [rewrite List.app_nil_r|]; reflexivity.
Qed.

(** The loop over a concatenation runs the first part, then the second
    part from where the first one ended. *)
Lemma get_transcripts_loop_app pre rest languages continue_after_error proxies cookies
    preserve_formatting verify :
  forall data unret (w : world) data1 unret1 w1,
    get_transcripts_loop' pre languages continue_after_error proxies cookies
      preserve_formatting verify data unret w = (Return (data1, unret1), w1) ->
    get_transcripts_loop' (pre ++ rest) languages continue_after_error proxies cookies
      preserve_formatting verify data unret w =
    get_transcripts_loop' rest languages continue_after_error proxies cookies
      preserve_formatting verify data1 unret1 w1.
Proof.
  induction pre as [|video_id pre IH]; intros data unret w data1 unret1 w1; simpl.
  - unfold ret. intros [= <- <- <-]. reflexivity.
  - destruct (get_transcript' video_id languages proxies cookies preserve_formatting
                verify (record (EvAttempt video_id) w)) as [[t|e] w0].
    + apply IH.
    + destruct continue_after_error; simpl; [apply IH | discriminate].
Qed.

(** With continue_after_error set the loop always returns; it only adds to
    the end of the unretrievable list, and it attempts its ids in order. *)
Lemma get_transcripts_loop_continue ids languages proxies cookies
    preserve_formatting verify :
  forall data unret (w : world),
  exists data' later w' new,
    get_transcripts_loop' ids languages true proxies cookies preserve_formatting
      verify data unret w = (Return (data', unret ++ later), w') /\
    log w' = log w ++ new /\ attempts new = ids.
Proof.
  induction ids as [|video_id ids IH]; intros data unret w; simpl.
  - exists data, [], w, []. unfold ret. rewrite !List.app_nil_r. auto.
  - destruct (get_transcript' video_id languages proxies cookies preserve_formatting
                verify (record (EvAttempt video_id) w)) as [[t|e] w0] eqn:Hg;
      apply get_transcript_attempts in Hg as (new0 & Hlog0 & Hatt0);
      simpl in Hlog0.
    + destruct (IH (dict_setitem video_id t data) unret w0)
        as (data' & later & w' & new & Hrun & Hlog & Hatt).
      exists data', later, w', ([EvAttempt video_id] ++ new0 ++ new).
      split; [exact Hrun|]. split.
      * rewrite Hlog, Hlog0. rewrite <- !List.app_assoc. reflexivity.
      * rewrite !attempts_app, Hatt0, Hatt. reflexivity.
    + destruct (IH data (unret ++ [video_id]) w0)
        as (data' & later & w' & new & Hrun & Hlog & Hatt).
      exists data', (video_id :: later), w', ([EvAttempt video_id] ++ new0 ++ new).
      split; [rewrite Hrun, <- List.app_assoc; reflexivity|]. split.
      * rewrite Hlog, Hlog0. rewrite <- !List.app_assoc. reflexivity.
      * rewrite !attempts_app, Hatt0, Hatt. reflexivity.
Qed.

(** C1. Let the ids before some position have been processed, and let
    retrieval raise an exception at that position.  With
    continue_after_error false, get_transcripts raises that exception and
    ends in the world the failed retrieval left: nothing is returned and no
    later id is attempted.  With continue_after_error true, the call
    returns, the failing id comes in the unretrievable list right after
    the ids that failed before it, and every later id is attempted in
    turn. *)
Theorem get_transcripts_on_error (pre : list pyval) (video_id : pyval)
    (post : list pyval) (languages : list string) (continue_after_error : bool)
    (proxies : option (gmap string string)) (cookies : option string)
    (preserve_formatting : bool) (verify : option verify_setting)
    (w : world) data unret (w1 : world) (e : exn) (w2 : world) :
  get_transcripts' (PyList pre) languages continue_after_error proxies cookies
    preserve_formatting verify w = (Return (data, unret), w1) ->
  get_transcript' video_id languages proxies cookies preserve_formatting verify
    (record (EvAttempt video_id) w1) = (Raise e, w2) ->
  if continue_after_error then
    exists data' later w' new,
      get_transcripts' (PyList (pre ++ video_id :: post)) languages true proxies
        cookies preserve_formatting verify w =
        (Return (data', unret ++ video_id :: later), w') /\
      log w' = log w2 ++ new /\ attempts new = post
  else
    get_transcripts' (PyList (pre ++ video_id :: post)) languages false proxies
      cookies preserve_formatting verify w = (Raise e, w2) /\
    attempts (log w2) = attempts (log w1) ++ [video_id].
Proof.
  unfold get_transcripts, assert_, bind, ret. simpl.
  intros Hpre Hfail.
  pose proof (get_transcripts_loop_app _ (video_id :: post) _ _ _ _ _ _ _ _ _ _ _ _ Hpre)
    as Happ.
  simpl in Happ. rewrite Hfail in Happ.
  destruct continue_after_error; simpl in Happ; rewrite Happ.
  - destruct (get_transcripts_loop_continue post languages proxies cookies
                preserve_formatting verify data (unret ++ [video_id]) w2)
      as (data' & later & w' & new & Hrun & Hlog & Hatt).
    exists data', later, w', new. rewrite Hrun, <- List.app_assoc. auto.
  - split; [reflexivity|].
    apply get_transcript_attempts in Hfail as (new & Hlog & Hatt).
    rewrite Hlog. simpl. rewrite !attempts_app, Hatt. simpl.
    rewrite List.app_nil_r. reflexivity.
Qed.

Abbreviation failing_ids' := (failing_ids load list_fetch transcript_fetch).

Lemma dict_keys_setitem_fresh (k : pyval) (v : Cues) (d : dict) :
  k ∉ dict_keys d -> dict_keys (dict_setitem k v d) = dict_keys d ++ [k].
Proof.
  induction d as [|[k' v'] d IH]; simpl; intros Hk; [reflexivity|].
  apply not_elem_of_cons in Hk as [Hne Hk].
  destruct (decide (k' = k)) as [->|_]; [contradiction|].
  simpl. rewrite (IH Hk). reflexivity.
Qed.

(** With continue_after_error set, the loop appends exactly the failing
    ids to the unretrievable list. *)
Lemma get_transcripts_loop_failing ids languages proxies cookies
    preserve_formatting verify :
  forall data unret (w : world) data' unret' w',
    get_transcripts_loop' ids languages true proxies cookies preserve_formatting
      verify data unret w = (Return (data', unret'), w') ->
    unret' = unret ++
             failing_ids' ids languages proxies cookies preserve_formatting verify w.
Proof.
  induction ids as [|x ids IH]; intros data unret w data' unret' w'; simpl.
  - unfold ret. intros [= <- <- <-]. rewrite List.app_nil_r. reflexivity.
  - destruct (get_transcript' x languages proxies cookies preserve_formatting verify
                (record (EvAttempt x) w)) as [[t|e] w0]; intros H.
    + apply (IH _ _ _ _ _ _ H).
    + rewrite (IH _ _ _ _ _ _ H), <- List.app_assoc. reflexivity.
Qed.

(** On pairwise distinct ids that are not yet keys, the loop splits the
    ids between the new keys and the new unretrievable entries, each part
    in input order. *)
Lemma get_transcripts_loop_partition ids languages proxies cookies
    preserve_formatting verify :
  forall data unret (w : world) data' unret' w',
    NoDup ids ->
    (forall id, id ∈ ids -> id ∉ dict_keys data) ->
    get_transcripts_loop' ids languages true proxies cookies preserve_formatting
      verify data unret w = (Return (data', unret'), w') ->
    dict_keys data' = dict_keys data ++ filter (fun id => id ∈ dict_keys data') ids /\
    unret' = unret ++ filter (fun id => id ∉ dict_keys data') ids.
Proof.
  induction ids as [|x ids IH]; intros data unret w data' unret' w' Hnd Hfresh; simpl.
  - unfold ret. intros [= <- <- <-]. rewrite !List.app_nil_r. auto.
  - apply NoDup_cons in Hnd as [Hx Hnd].
    assert (Hxd : x ∉ dict_keys data) by (apply Hfresh; left).
    destruct (get_transcript' x languages proxies cookies preserve_formatting verify
                (record (EvAttempt x) w)) as [[t|e] w0]; intros H.
    + apply IH in H as [Hk Hu]; [|exact Hnd|].
      * rewrite dict_keys_setitem_fresh in Hk by exact Hxd.
        assert (Hin : x ∈ dict_keys data').
        { assert (Hin : x ∈ (dict_keys data ++ [x]) ++
                          filter (fun id => id ∈ dict_keys data') ids).
          { apply elem_of_app. left. apply elem_of_app. right. left. }
          rewrite <- Hk in Hin. exact Hin. }
        split.
        -- rewrite filter_cons_True by exact Hin.
           rewrite <- List.app_assoc in Hk. exact Hk.
        -- assert (Hnn : ~ (x ∉ dict_keys data')) by (intros Hn; exact (Hn Hin)).
           rewrite filter_cons_False by exact Hnn. exact Hu.
      * intros id Hid. rewrite dict_keys_setitem_fresh by exact Hxd.
        apply not_elem_of_app. split; [apply Hfresh; right; exact Hid|].
        intros Heq. apply list_elem_of_singleton in Heq. subst id. contradiction.
    + apply IH in H as [Hk Hu]; [|exact Hnd|].
      * assert (Hout : x ∉ dict_keys data').
        { intros Hin.
          assert (Hin' : x ∈ dict_keys data ++
                           filter (fun id => id ∈ dict_keys data') ids).
          { rewrite <- Hk. exact Hin. }
          apply elem_of_app in Hin' as [Hin'|Hin']; [contradiction|].
          apply list_elem_of_filter in Hin' as [_ Hin']. contradiction. }
        split.
        -- rewrite filter_cons_False by exact Hout. exact Hk.
        -- rewrite filter_cons_True by exact Hout.
           rewrite <- List.app_assoc in Hu. exact Hu.
      * intros id Hid. apply Hfresh. right. exact Hid.
Qed.

(** C9. On a list of pairwise distinct ids and with continue_after_error
    true, get_transcripts returns a dictionary and an unretrievable list
    such that every input id is a key of the dictionary or an element of
    the list, and never both; the run attempts exactly the input ids, one
    attempt each, in input order; and the unretrievable list is the
    failing ids in input order. *)
Theorem get_transcripts_partition (ids : list pyval) (languages : list string)
    (proxies : option (gmap string string)) (cookies : option string)
    (preserve_formatting : bool) (verify : option verify_setting) (w : world) :
  NoDup ids ->
  exists data unret w' new,
    get_transcripts' (PyList ids) languages true proxies cookies
      preserve_formatting verify w = (Return (data, unret), w') /\
    (forall id, id ∈ ids ->
       (id ∈ dict_keys data /\ (id ∉ unret)) \/ ((id ∉ dict_keys data) /\ id ∈ unret)) /\
    log w' = log w ++ new /\ attempts new = ids /\
    unret = failing_ids' ids languages proxies cookies preserve_formatting verify w /\
    unret = filter (fun id => id ∉ dict_keys data) ids /\
    dict_keys data = filter (fun id => id ∈ dict_keys data) ids.
Proof.
  intros Hnd.
  unfold get_transcripts, assert_, bind, ret. simpl.
  destruct (get_transcripts_loop_continue ids languages proxies cookies
              preserve_formatting verify [] [] w)
    as (data & unret & w' & new & Hrun & Hlog & Hatt).
  simpl in Hrun.
  pose proof (get_transcripts_loop_failing _ _ _ _ _ _ _ _ _ _ _ _ Hrun) as Hfail.
  assert (Hfresh : forall id, id ∈ ids -> id ∉ dict_keys (@nil (pyval * Cues))).
  { intros id _. apply not_elem_of_nil. }
  pose proof (get_transcripts_loop_partition _ _ _ _ _ _ _ _ _ _ _ _ Hnd
                Hfresh Hrun) as [Hk Hu].
  simpl in Hfail, Hk, Hu.
  exists data, unret, w', new. rewrite Hrun.
  split; [reflexivity|]. split; [|auto].
  intros id Hid. destruct (decide (id ∈ dict_keys data)) as [Hin|Hout].
  - left. split; [exact Hin|]. rewrite Hu. intros Hf.
    apply list_elem_of_filter in Hf as [Hf _]. contradiction.
  - right. split; [exact Hout|]. rewrite Hu. apply list_elem_of_filter. auto.
Qed.

(** get_transcript hands the failure of find_transcript to its caller:
    no payload is requested. *)
Lemma get_transcript_no_transcript_found (s : string) languages proxies cookies
    preserve_formatting verify (w : world) catalog w1 e :
  list_transcripts' (PyStr s) proxies cookies verify w = (Return catalog, w1) ->
  find_transcript catalog languages = Raise e ->
  get_transcript' (PyStr s) languages proxies cookies preserve_formatting verify w =
    (Raise e, w1).
Proof.
  intros Hl Hf. rewrite get_transcript_str. unfold shortcut_composition.
  rewrite Hl, Hf. reflexivity.
Qed.

End ApiFacts.

(** * The properties on the concrete world *)

Lemma find_transcript_no_match_witness :
  (forall code d,
      code ∈ ["fr"; "ja"] -> d ∈ descriptors demo_catalog ->
      allowed EitherOrigin d = true ->
      language_code d <> code /\
      primary_subtag (language_code d) <> primary_subtag code) /\
  exists available,
    find_transcript_in EitherOrigin demo_catalog ["fr"; "ja"] =
      Raise (NoTranscriptFound demo_video ["fr"; "ja"] available) /\
    forall code,
      code ∈ available <-> exists d, d ∈ descriptors demo_catalog /\ language_code d = code.
Proof.
  assert (H : forall code d,
      code ∈ ["fr"; "ja"] -> d ∈ descriptors demo_catalog ->
      allowed EitherOrigin d = true ->
      language_code d <> code /\
      primary_subtag (language_code d) <> primary_subtag code).
  { intros code d Hc Hd _. simpl in Hd.
    split_mem Hc; split_mem Hd; split; vm_compute; discriminate. }
  split; [exact H|].
  exact (find_transcript_no_match EitherOrigin demo_catalog ["fr"; "ja"] H).
Defined.

Lemma find_transcript_exact_first_witness :
  (exists code d,
      code ∈ ["de"; "en"] /\ d ∈ descriptors demo_catalog /\
      allowed EitherOrigin d = true /\ language_code d = code) /\
  exists d' before after,
    find_transcript_in EitherOrigin demo_catalog ["de"; "en"] = Return d' /\
    d' ∈ descriptors demo_catalog /\ allowed EitherOrigin d' = true /\
    ["de"; "en"] = before ++ language_code d' :: after /\
    forall c d, c ∈ before -> d ∈ descriptors demo_catalog ->
                allowed EitherOrigin d = true -> language_code d <> c.
Proof.
  assert (H : exists code d,
      code ∈ ["de"; "en"] /\ d ∈ descriptors demo_catalog /\
      allowed EitherOrigin d = true /\ language_code d = code).
  { exists "en", demo_en_manual. simpl. repeat split.
    - right. left.
    - right. right. left. }
  split; [exact H|].
  exact (find_transcript_exact_first EitherOrigin demo_catalog ["de"; "en"] H).
Defined.


Lemma get_transcripts_on_error_witness :
  let run := get_transcripts demo_load demo_list_fetch demo_transcript_fetch in
  let retrieve := get_transcript demo_load demo_list_fetch demo_transcript_fetch in
  let unavailable := CouldNotRetrieveTranscript (PyStr "removed") VideoUnavailable in
  let cues := ["English"; "Hey, this is just a test"] in
  let stop_w1 :=
    snd (run (PyList [demo_video]) ["en"] false None None false None demo_world) in
  let stop_w2 :=
    snd (retrieve (PyStr "removed") ["en"] None None false None
           (record (EvAttempt (PyStr "removed")) stop_w1)) in
  let go_w1 :=
    snd (run (PyList [PyInt 7; demo_video]) ["en"] true None None false None
           demo_world) in
  let go_w2 :=
    snd (retrieve (PyStr "removed") ["en"] None None false None
           (record (EvAttempt (PyStr "removed")) go_w1)) in
  (run (PyList [demo_video]) ["en"] false None None false None demo_world =
     (Return ([(demo_video, cues)], []), stop_w1) /\
   retrieve (PyStr "removed") ["en"] None None false None
     (record (EvAttempt (PyStr "removed")) stop_w1) = (Raise unavailable, stop_w2) /\
   run (PyList ([demo_video] ++ PyStr "removed" :: [PyInt 7])) ["en"] false None None
     false None demo_world = (Raise unavailable, stop_w2) /\
   attempts (log stop_w2) = attempts (log stop_w1) ++ [PyStr "removed"])
  /\
  (run (PyList [PyInt 7; demo_video]) ["en"] true None None false None demo_world =
     (Return ([(demo_video, cues)], [PyInt 7]), go_w1) /\
   retrieve (PyStr "removed") ["en"] None None false None
     (record (EvAttempt (PyStr "removed")) go_w1) = (Raise unavailable, go_w2) /\
   exists data' later w' new,
     run (PyList ([PyInt 7; demo_video] ++ PyStr "removed" :: [PyStr "private"]))
       ["en"] true None None false None demo_world =
       (Return (data', [PyInt 7] ++ PyStr "removed" :: later), w') /\
     log w' = log go_w2 ++ new /\ attempts new = [PyStr "private"]).
Proof.
  intros run retrieve unavailable cues stop_w1 stop_w2 go_w1 go_w2.
  assert (H1 : run (PyList [demo_video]) ["en"] false None None false None demo_world =
               (Return ([(demo_video, cues)], []), stop_w1)) by reflexivity.
  assert (H2 : retrieve (PyStr "removed") ["en"] None None false None
                 (record (EvAttempt (PyStr "removed")) stop_w1) =
               (Raise unavailable, stop_w2)) by reflexivity.
  assert (H3 : run (PyList [PyInt 7; demo_video]) ["en"] true None None false None
                 demo_world = (Return ([(demo_video, cues)], [PyInt 7]), go_w1))
    by reflexivity.
  assert (H4 : retrieve (PyStr "removed") ["en"] None None false None
                 (record (EvAttempt (PyStr "removed")) go_w1) =
               (Raise unavailable, go_w2)) by reflexivity.
  split.
  - split; [exact H1|]. split; [exact H2|].
    exact (get_transcripts_on_error demo_load demo_list_fetch demo_transcript_fetch
             [demo_video] (PyStr "removed") [PyInt 7] ["en"] false None None false None
             demo_world [(demo_video, cues)] [] stop_w1 unavailable stop_w2 H1 H2).
  - split; [exact H3|]. split; [exact H4|].
    exact (get_transcripts_on_error demo_load demo_list_fetch demo_transcript_fetch
             [PyInt 7; demo_video] (PyStr "removed") [PyStr "private"] ["en"] true
             None None false None
             demo_world [(demo_video, cues)] [PyInt 7] go_w1 unavailable go_w2 H3 H4).
Defined.

Lemma get_transcripts_partition_witness :
  let ids := [demo_video; PyStr "removed"; PyInt 7] in
  NoDup ids /\
  exists data unret w' new,
    get_transcripts demo_load demo_list_fetch demo_transcript_fetch (PyList ids)
      ["en"] true None None false None demo_world = (Return (data, unret), w') /\
    (forall id, id ∈ ids ->
       (id ∈ dict_keys data /\ (id ∉ unret)) \/ ((id ∉ dict_keys data) /\ id ∈ unret)) /\
    log w' = log demo_world ++ new /\ attempts new = ids /\
    unret = failing_ids demo_load demo_list_fetch demo_transcript_fetch ids
              ["en"] None None false None demo_world /\
    unret = filter (fun id => id ∉ dict_keys data) ids /\
    dict_keys data = filter (fun id => id ∈ dict_keys data) ids.
Proof.
  intros ids.
  assert (H : NoDup ids).
  { apply (bool_decide_unpack _). vm_compute. exact I. }
  split; [exact H|].
  exact (get_transcripts_partition demo_load demo_list_fetch demo_transcript_fetch
           ids ["en"] None None false None demo_world H).
Defined.

(** ** Where the code departs from the claims *)

(** C2 at a video id that is not a string, on a platform that serves a
    catalog for whatever the id formats to: get_transcript raises the
    assertion failure of line 163 and makes no request, while the
    composition requests the catalog, fetches the payload and returns. *)
Lemma get_transcript_non_string_id :
  let direct :=
    get_transcript demo_load demo_list_fetch_any demo_transcript_fetch
      (PyInt 7) ["en"] None None false None demo_world in
  let composed :=
    shortcut_composition demo_load demo_list_fetch_any demo_transcript_fetch
      (PyInt 7) ["en"] None None false None demo_world in
  direct = (Raise (AssertionError "`video_id` must be a string"), demo_world) /\
  fst composed = Return ["English"; "Hey, this is just a test"] /\
  list_fetches (log (snd composed)) = [(new_Session, PyInt 7)] /\
  direct <> composed /\
  raises (fst direct) /\ ~ raises (fst composed).
Proof.
  vm_compute. repeat split; try reflexivity; try discriminate. intros H. exact H.
Qed.

(** C3 at the path of a cookie file that exists and may not be read: the
    load fails although the file is neither missing nor malformed, and
    _load_cookies raises neither of its two errors nor returns a jar; the
    PermissionError of the load reaches the caller. *)
Lemma load_cookies_unreadable_file :
  let r := fst (_load_cookies demo_load "/root/cookies.txt" demo_video demo_world) in
  demo_load "/root/cookies.txt" (env demo_world) = inl PermissionError /\
  CookieLoadError PermissionError = false /\
  r = Raise (Builtin PermissionError) /\
  r <> Raise (CookiePathInvalid demo_video) /\
  r <> Raise (CookiesInvalid demo_video) /\
  raises r.
Proof.
  vm_compute. repeat split; try reflexivity; discriminate.
Qed.


(** * Further properties of the entry points *)

Lemma cookie_loads_app l1 l2 :
  cookie_loads (l1 ++ l2) = cookie_loads l1 ++ cookie_loads l2.
Proof. unfold cookie_loads. apply List.flat_map_app. Qed.

Lemma transcript_fetches_app l1 l2 :
  transcript_fetches (l1 ++ l2) = transcript_fetches l1 ++ transcript_fetches l2.
Proof. unfold transcript_fetches. apply List.flat_map_app. Qed.

Section BatchFacts.

Context {Env Cues : Type}.
Variable load : string -> Env -> builtin_exn + cookie_jar.
Variable list_fetch : Session -> pyval -> Env -> outcome TranscriptList * Env.
Variable transcript_fetch : Descriptor -> bool -> Env -> outcome Cues * Env.

Abbreviation load_cookies_ := (_load_cookies load).
Abbreviation list_transcripts_ := (list_transcripts load list_fetch).
Abbreviation get_transcript_ := (get_transcript load list_fetch transcript_fetch).
Abbreviation get_transcripts_ := (get_transcripts load list_fetch transcript_fetch).
Abbreviation loop_ := (get_transcripts_loop load list_fetch transcript_fetch).
Abbreviation failing_ids_ := (failing_ids load list_fetch transcript_fetch).

(** *** The dictionary *)

Lemma dict_keys_setitem (k : pyval) (v : Cues) (d : dict) x :
  x ∈ dict_keys (dict_setitem k v d) <-> x = k \/ x ∈ dict_keys d.
Proof.
  induction d as [|[k' v'] d IH]; simpl.
  - rewrite list_elem_of_singleton, elem_of_nil. tauto.
  - destruct (decide (k' = k)) as [->|Hne]; simpl.
    + rewrite !elem_of_cons. tauto.
    + rewrite !elem_of_cons, IH. tauto.
Qed.

Lemma elem_of_dict_setitem (k : pyval) (v : Cues) (d : dict) k' v' :
  (k', v') ∈ dict_setitem k v d -> (k', v') = (k, v) \/ (k', v') ∈ d.
Proof.
  induction d as [|[k0 v0] d IH]; simpl.
  - rewrite list_elem_of_singleton. auto.
  - destruct (decide (k0 = k)) as [->|Hne]; rewrite !elem_of_cons.
    + intros [H|H]; auto.
    + intros [H|H]; auto. destruct (IH H); auto.
Qed.

Lemma dict_setitem_length (k : pyval) (v : Cues) (d : dict) :
  length (dict_setitem k v d) <= S (length d).
Proof.
  induction d as [|[k0 v0] d IH]; simpl; [lia|].
  destruct (decide (k0 = k)); simpl; lia.
Qed.

Lemma dict_get_setitem_eq (k : pyval) (v : Cues) (d : dict) :
  dict_get k (dict_setitem k v d) = Some v.
Proof.
  induction d as [|[k0 v0] d IH]; simpl.
  - destruct (decide (k = k)); [reflexivity | contradiction].
  - destruct (decide (k0 = k)) as [->|Hne]; simpl.
    + destruct (decide (k = k)); [reflexivity | contradiction].
    + destruct (decide (k0 = k)); [contradiction | exact IH].
Qed.

Lemma dict_get_setitem_ne (k k' : pyval) (v : Cues) (d : dict) :
  k <> k' -> dict_get k' (dict_setitem k v d) = dict_get k' d.
Proof.
  intros Hne. induction d as [|[k0 v0] d IH]; simpl.
  - destruct (decide (k = k')); [contradiction | reflexivity].
  - destruct (decide (k0 = k)) as [->|Hne0]; simpl.
    + destruct (decide (k = k')); [contradiction | reflexivity].
    + destruct (decide (k0 = k')); [reflexivity | exact IH].
Qed.

(** *** One retrieval *)

Lemma get_transcript_returns_str video_id languages proxies cookies
    preserve_formatting verify (w : world) t w' :
  get_transcript_ video_id languages proxies cookies preserve_formatting verify w
    = (Return t, w') ->
  isinstance_str video_id = true.
Proof.
  destruct (isinstance_str video_id) eqn:E; [reflexivity|].
  rewrite get_transcript_not_str by exact E. discriminate.
Qed.

(** Once the session is configured: one catalog request, then, when a
    transcript is found, one payload request. *)
Lemma after_session (s : Session) (video_id : pyval) languages preserve_formatting
    (w1 : world) r (w' : world) :
  match fetcher_fetch list_fetch s video_id w1 with
  | (Raise e, w2) => (Raise e, w2)
  | (Return transcript_list, w2) =>
      match find_transcript transcript_list languages with
      | Raise e => (Raise e, w2)
      | Return transcript => fetch transcript_fetch transcript preserve_formatting w2
      end
  end = (r, w') ->
  exists tf,
    log w' = log w1 ++ [EvListFetch s video_id] ++ tf /\
    (tf = [] /\ raises r \/
     exists catalog t e1,
       list_fetch s video_id (env w1) = (Return catalog, e1) /\
       find_transcript catalog languages = Return t /\
       tf = [EvTranscriptFetch t preserve_formatting]).
Proof.
  unfold fetcher_fetch, fetch.
  destruct (list_fetch s video_id (env w1)) as [[catalog|e] e0].
  - destruct (find_transcript catalog languages) as [t|e] eqn:Hf.
    + simpl. destruct (transcript_fetch t preserve_formatting e0) as [r0 e1].
      intros [= <- <-]. exists [EvTranscriptFetch t preserve_formatting]. simpl.
      split; [rewrite <- List.app_assoc; reflexivity|].
      right. exists catalog, t, e0. auto.
    + intros [= <- <-]. exists []. simpl. split; [reflexivity|]. left. simpl. auto.
  - intros [= <- <-]. exists []. simpl. split; [reflexivity|]. left. simpl. auto.
Qed.

(** The events of one call of get_transcript: at most a cookie read, then
    at most a catalog request, then at most a payload request. *)
Lemma get_transcript_events video_id languages proxies cookies
    preserve_formatting verify (w : world) r w' :
  get_transcript_ video_id languages proxies cookies preserve_formatting verify w
    = (r, w') ->
  exists cl lf tf,
    log w' = log w ++ cl ++ lf ++ tf /\
    (cl = [] \/ exists p, cookies_truthy cookies = Some p /\ cl = [EvLoadCookies p]) /\
    (lf = [] /\ tf = [] /\ raises r /\ env w' = env w
     \/
     exists s,
       isinstance_str video_id = true /\ lf = [EvListFetch s video_id] /\
       (tf = [] /\ raises r \/
        exists catalog t e1,
          list_fetch s video_id (env w) = (Return catalog, e1) /\
          find_transcript catalog languages = Return t /\
          tf = [EvTranscriptFetch t preserve_formatting])).
Proof.
  destruct (isinstance_str video_id) eqn:E.
  - destruct video_id as [| | |sv| |]; try discriminate.
    rewrite get_transcript_str. unfold shortcut_composition.
    rewrite list_transcripts_run.
    destruct (cookies_truthy cookies) as [p|] eqn:Hc.
    + rewrite _load_cookies_run.
      assert (Hfail : forall e,
        (Raise e, record (EvLoadCookies p) w) = (r, w') ->
        exists cl lf tf,
          log w' = log w ++ cl ++ lf ++ tf /\
          (cl = [] \/ exists p0, Some p = Some p0 /\ cl = [EvLoadCookies p0]) /\
          (lf = [] /\ tf = [] /\ raises r /\ env w' = env w
           \/
           exists s,
             true = true /\ lf = [EvListFetch s (PyStr sv)] /\
             (tf = [] /\ raises r \/
              exists catalog t e1,
                list_fetch s (PyStr sv) (env w) = (Return catalog, e1) /\
                find_transcript catalog languages = Return t /\
                tf = [EvTranscriptFetch t preserve_formatting]))).
      { intros e [= <- <-]. exists [EvLoadCookies p], [], []. simpl.
        split; [reflexivity|]. split; [right; exists p; auto|]. left. auto. }
      destruct (load p (env w)) as [b|jar].
      * destruct (CookieLoadError b); apply Hfail.
      * destruct (jar_truthy jar); [|apply Hfail].
        intros H. apply after_session in H as (tf & Hlog & Htf).
        eexists [EvLoadCookies p], [EvListFetch _ (PyStr sv)], tf.
        split; [rewrite Hlog; simpl; rewrite <- List.app_assoc; reflexivity|].
        split; [right; exists p; auto|]. right. eexists. auto.
    + intros H. apply after_session in H as (tf & Hlog & Htf).
      eexists [], [EvListFetch _ (PyStr sv)], tf.
      split; [exact Hlog|]. split; [left; reflexivity|]. right. eexists. auto.
  - rewrite get_transcript_not_str by exact E. intros [= <- <-].
    exists [], [], []. simpl. rewrite List.app_nil_r.
    split; [reflexivity|]. split; [left; reflexivity|]. left. auto.
Qed.

(** The same, read through the three kinds of outside operations. *)
Lemma get_transcript_requests video_id languages proxies cookies
    preserve_formatting verify (w : world) r w' :
  get_transcript_ video_id languages proxies cookies preserve_formatting verify w
    = (r, w') ->
  exists new,
    log w' = log w ++ new /\ attempts new = [] /\
    (cookie_loads new = [] \/
     exists p, cookies_truthy cookies = Some p /\ cookie_loads new = [p]) /\
    (list_fetches new = [] /\ transcript_fetches new = [] /\ raises r /\ env w' = env w
     \/
     exists s,
       isinstance_str video_id = true /\ list_fetches new = [(s, video_id)] /\
       (transcript_fetches new = [] /\ raises r \/
        exists catalog t e1,
          list_fetch s video_id (env w) = (Return catalog, e1) /\
          find_transcript catalog languages = Return t /\
          transcript_fetches new = [(t, preserve_formatting)])).
Proof.
  intros H. apply get_transcript_events in H as (cl & lf & tf & Hlog & Hcl & Hrest).
  exists (cl ++ lf ++ tf). split; [exact Hlog|].
  rewrite !attempts_app, !cookie_loads_app, !list_fetches_app, !transcript_fetches_app.
  assert (Hcl' : attempts cl = [] /\ list_fetches cl = [] /\ transcript_fetches cl = [] /\
                 (cookie_loads cl = [] \/
                  exists p, cookies_truthy cookies = Some p /\ cookie_loads cl = [p])).
  { destruct Hcl as [->|(p & Hp & ->)]; simpl; repeat split; auto.
    right. exists p. auto. }
  destruct Hcl' as (-> & -> & -> & Hloads).
  destruct Hrest as [(-> & -> & Hr & He)|(s & Hs & -> & Htf)].
  - simpl. rewrite List.app_nil_r. repeat split; auto.
  - destruct Htf as [(-> & Hr)|(catalog & t & e1 & Hl & Hf & ->)]; simpl;
      rewrite ?List.app_nil_r; repeat split; auto.
    + right. exists s. auto.
    + right. exists s. repeat split; auto. right. exists catalog, t, e1. auto.
Qed.

Lemma cookies_truthy_Some cookies p : cookies_truthy cookies = Some p -> cookies = Some p.
Proof.
  destruct cookies as [q|]; simpl; [|discriminate].
  destruct (String.eqb q ""); [discriminate|]. intros [= ->]. reflexivity.
Qed.

(** X1. One call of get_transcript reads at most one cookie file, makes at
    most one catalog request and at most one payload request, and no
    payload request without a catalog request: nothing is retried.  The
    cookie file is the one given, the catalog request is for the given
    video id, and the payload request, if any, is made with the given
    preserve_formatting for the transcript that find_transcript selects,
    for the given languages, from the catalog that the catalog request of
    this call returned. *)
Theorem get_transcript_request_budget (video_id : pyval) (languages : list string)
    (proxies : option (gmap string string)) (cookies : option string)
    (preserve_formatting : bool) (verify : option verify_setting) (w : world) :
  exists new,
    log (snd (get_transcript_ video_id languages proxies cookies
                preserve_formatting verify w)) = log w ++ new /\
    length (cookie_loads new) <= 1 /\
    length (list_fetches new) <= 1 /\
    length (transcript_fetches new) <= length (list_fetches new) /\
    (forall p, p ∈ cookie_loads new -> cookies = Some p) /\
    (forall s v, (s, v) ∈ list_fetches new -> v = video_id) /\
    (forall t pf, (t, pf) ∈ transcript_fetches new ->
       pf = preserve_formatting /\
       exists s catalog e1,
         (s, video_id) ∈ list_fetches new /\
         list_fetch s video_id (env w) = (Return catalog, e1) /\
         find_transcript catalog languages = Return t).
Proof.
  destruct (get_transcript_ video_id languages proxies cookies preserve_formatting
              verify w) as [r w'] eqn:H.
  apply get_transcript_requests in H as (new & Hlog & _ & Hcl & Hrest).
  exists new. simpl. split; [exact Hlog|].
  assert (Hc : length (cookie_loads new) <= 1 /\
               forall p, p ∈ cookie_loads new -> cookies = Some p).
  { destruct Hcl as [->|(p & Hp & ->)]; simpl; split; try lia.
    - intros p Hin. inversion Hin.
    - intros q Hin. apply list_elem_of_singleton in Hin as ->.
      apply cookies_truthy_Some. exact Hp. }
  destruct Hc as [Hc1 Hc2].
  split; [exact Hc1|].
  destruct Hrest as [(-> & -> & _ & _)|(s & _ & Hlf & Htf)].
  - simpl. split; [lia|]. split; [lia|]. split; [exact Hc2|].
    split; intros ? ? Hin; inversion Hin.
  - rewrite Hlf.
    assert (Hl : forall s0 v, (s0, v) ∈ [(s, video_id)] -> v = video_id).
    { intros s0 v Hin. apply list_elem_of_singleton in Hin. congruence. }
    destruct Htf as [(-> & _)|(catalog & t & e1 & Hfetch & Hf & ->)]; simpl.
    + split; [lia|]. split; [lia|]. split; [exact Hc2|]. split; [exact Hl|].
      intros ? ? Hin. inversion Hin.
    + split; [lia|]. split; [lia|]. split; [exact Hc2|]. split; [exact Hl|].
      intros t0 pf Hin. apply list_elem_of_singleton in Hin. injection Hin as -> ->.
      split; [reflexivity|]. exists s, catalog, e1.
      split; [apply list_elem_of_singleton; reflexivity|]. auto.
Qed.

(** X2. When a non-empty cookie path is given and the load does not yield
    a jar with a cookie in it, get_transcript on a string id raises the
    error of _load_cookies (CookiePathInvalid or CookiesInvalid with that
    video id, or the unhandled exception of the load) after reading the
    file and before any request: the world it leaves is the one it found
    plus that one read. *)
Theorem get_transcript_cookie_failure (sv : string) (languages : list string)
    (proxies : option (gmap string string)) (cookies : option string) (path : string)
    (preserve_formatting : bool) (verify : option verify_setting) (w : world) :
  cookies_truthy cookies = Some path ->
  (forall jar, load path (env w) = inr jar -> jar = []) ->
  get_transcript_ (PyStr sv) languages proxies cookies preserve_formatting verify w =
    (Raise match load path (env w) with
           | inl b =>
               if CookieLoadError b then CookiePathInvalid (PyStr sv) else Builtin b
           | inr _ => CookiesInvalid (PyStr sv)
           end,
     record (EvLoadCookies path) w).
Proof.
  intros Hc Hbad. rewrite get_transcript_str. unfold shortcut_composition.
  rewrite list_transcripts_run, Hc, _load_cookies_run.
  destruct (load path (env w)) as [b|jar].
  - destruct (CookieLoadError b); reflexivity.
  - rewrite (Hbad jar eq_refl). reflexivity.
Qed.

(** *** Arguments that count as omitted *)

Lemma list_transcripts_falsy video_id proxies cookies verify (w : world) :
  proxies_truthy proxies = false -> cookies_truthy cookies = None ->
  list_transcripts_ video_id proxies cookies verify w =
  list_transcripts_ video_id None None verify w.
Proof.
  intros Hp Hc. rewrite !list_transcripts_run, Hc. simpl.
  assert (Hd : default ∅ proxies = (∅ : gmap string string)).
  { destruct proxies as [m|]; simpl in *; [|reflexivity].
    case_bool_decide; [assumption | discriminate]. }
  rewrite Hd. reflexivity.
Qed.

Lemma get_transcript_falsy video_id languages proxies cookies preserve_formatting
    verify (w : world) :
  proxies_truthy proxies = false -> cookies_truthy cookies = None ->
  get_transcript_ video_id languages proxies cookies preserve_formatting verify w =
  get_transcript_ video_id languages None None preserve_formatting verify w.
Proof.
  intros Hp Hc. destruct (isinstance_str video_id) eqn:E.
  - destruct video_id; try discriminate.
    rewrite !get_transcript_str. unfold shortcut_composition.
    rewrite (list_transcripts_falsy _ _ _ _ _ Hp Hc). reflexivity.
  - rewrite !get_transcript_not_str by exact E. reflexivity.
Qed.

(** X3. An empty proxies dict and an empty cookie path are treated like
    omitted arguments: list_transcripts, get_transcript and
    get_transcripts behave exactly as when proxies and cookies are None. *)
Theorem empty_arguments_as_omitted (video_id video_ids : pyval)
    (languages : list string) (continue_after_error : bool)
    (proxies : option (gmap string string)) (cookies : option string)
    (preserve_formatting : bool) (verify : option verify_setting) (w : world) :
  proxies_truthy proxies = false -> cookies_truthy cookies = None ->
  list_transcripts_ video_id proxies cookies verify w =
    list_transcripts_ video_id None None verify w /\
  get_transcript_ video_id languages proxies cookies preserve_formatting verify w =
    get_transcript_ video_id languages None None preserve_formatting verify w /\
  get_transcripts_ video_ids languages continue_after_error proxies cookies
    preserve_formatting verify w =
    get_transcripts_ video_ids languages continue_after_error None None
      preserve_formatting verify w.
Proof.
  intros Hp Hc.
  split; [apply list_transcripts_falsy; assumption|].
  split; [apply get_transcript_falsy; assumption|].
  unfold get_transcripts, bind, assert_.
  destruct video_ids as [| | | | |items]; simpl; try reflexivity.
  generalize (@nil (pyval * Cues)) (@nil pyval) w.
  induction items as [|x items IH]; intros data unret w0; simpl; [reflexivity|].
  rewrite (get_transcript_falsy _ _ _ _ _ _ _ Hp Hc).
  destruct (get_transcript_ x languages None None preserve_formatting verify
              (record (EvAttempt x) w0)) as [[t|e] w1].
  - apply IH.
  - destruct continue_after_error; simpl; [apply IH | reflexivity].
Qed.

(** *** The batch, stopping at the first error *)

Lemma loop_fail_fast ids languages proxies cookies preserve_formatting verify :
  forall data unret (w : world) r w',
    loop_ ids languages false proxies cookies preserve_formatting verify data unret w
      = (r, w') ->
    match r with
    | Return (data', unret') =>
        unret' = unret /\
        (forall id, id ∈ ids \/ id ∈ dict_keys data -> id ∈ dict_keys data') /\
        failing_ids_ ids languages proxies cookies preserve_formatting verify w = [] /\
        exists new, log w' = log w ++ new /\ attempts new = ids
    | Raise e =>
        exists pre v post w1,
          ids = pre ++ v :: post /\
          failing_ids_ pre languages proxies cookies preserve_formatting verify w = [] /\
          get_transcript_ v languages proxies cookies preserve_formatting verify
            (record (EvAttempt v) w1) = (Raise e, w') /\
          exists new, log w' = log w ++ new /\ attempts new = pre ++ [v]
    end.
Proof.
  induction ids as [|x ids IH]; intros data unret w r w'; simpl.
  - unfold ret. intros [= <- <-]. split; [reflexivity|].
    split; [intros id [H|H]; [inversion H | exact H]|].
    split; [reflexivity|]. exists []. rewrite List.app_nil_r. auto.
  - destruct (get_transcript_ x languages proxies cookies preserve_formatting verify
                (record (EvAttempt x) w)) as [[t|e] w0] eqn:Hg.
    + pose proof Hg as Hatt.
      apply get_transcript_attempts in Hatt as (new0 & Hlog0 & Hatt0). simpl in Hlog0.
      intros H. apply IH in H. destruct r as [[data' unret']|e].
      * destruct H as (Hu & Hk & Hf & new & Hlog & Hatt).
        split; [exact Hu|]. split; [|split; [exact Hf|]].
        -- intros id Hid. apply Hk. rewrite dict_keys_setitem.
           destruct Hid as [Hid|Hid]; [|auto].
           apply elem_of_cons in Hid as [->|Hid]; auto.
        -- exists ([EvAttempt x] ++ new0 ++ new). split.
           ++ rewrite Hlog, Hlog0, <- !List.app_assoc. reflexivity.
           ++ rewrite !attempts_app, Hatt0, Hatt. reflexivity.
      * destruct H as (pre & v & post & w1 & -> & Hf & Hv & new & Hlog & Hatt).
        exists (x :: pre), v, post, w1. split; [reflexivity|].
        split; [simpl; rewrite Hg; exact Hf|]. split; [exact Hv|].
        exists ([EvAttempt x] ++ new0 ++ new). split.
        -- rewrite Hlog, Hlog0, <- !List.app_assoc. reflexivity.
        -- rewrite !attempts_app, Hatt0, Hatt. reflexivity.
    + simpl. intros [= <- <-].
      pose proof Hg as Hatt.
      apply get_transcript_attempts in Hatt as (new0 & Hlog0 & Hatt0). simpl in Hlog0.
      exists [], x, ids, w. split; [reflexivity|]. split; [reflexivity|].
      split; [exact Hg|]. exists ([EvAttempt x] ++ new0). split.
      * rewrite Hlog0, <- List.app_assoc. reflexivity.
      * rewrite attempts_app, Hatt0. reflexivity.
Qed.

(** X4. With continue_after_error false, get_transcripts either returns,
    and then the unretrievable list is empty, every input id is a key of
    the dictionary and every id was attempted, in input order; or it
    raises, and then the exception is the one the retrieval of some input
    id raised, every id before that one was retrieved, and the ids
    attempted are those up to and including that one. *)
Theorem get_transcripts_fail_fast (ids : list pyval) (languages : list string)
    (proxies : option (gmap string string)) (cookies : option string)
    (preserve_formatting : bool) (verify : option verify_setting) (w : world) :
  match get_transcripts_ (PyList ids) languages false proxies cookies
          preserve_formatting verify w with
  | (Return (data, unret), w') =>
      unret = [] /\
      (forall id, id ∈ ids -> id ∈ dict_keys data) /\
      exists new, log w' = log w ++ new /\ attempts new = ids
  | (Raise e, w') =>
      exists pre v post w1,
        ids = pre ++ v :: post /\
        failing_ids_ pre languages proxies cookies preserve_formatting verify w = [] /\
        get_transcript_ v languages proxies cookies preserve_formatting verify
          (record (EvAttempt v) w1) = (Raise e, w') /\
        exists new, log w' = log w ++ new /\ attempts new = pre ++ [v]
  end.
Proof.
  unfold get_transcripts, bind, assert_, ret. simpl.
  destruct (loop_ ids languages false proxies cookies preserve_formatting verify
              [] [] w) as [r w'] eqn:H.
  apply loop_fail_fast in H. destruct r as [[data unret]|e]; [|exact H].
  destruct H as (Hu & Hk & _ & Hnew).
  split; [exact Hu|]. split; [|exact Hnew]. intros id Hid. apply Hk. auto.
Qed.

Lemma loop_modes ids languages proxies cookies preserve_formatting verify :
  forall data unret (w : world),
  exists data' later w',
    loop_ ids languages true proxies cookies preserve_formatting verify data unret w
      = (Return (data', unret ++ later), w') /\
    match later with
    | [] =>
        loop_ ids languages false proxies cookies preserve_formatting verify
          data unret w = (Return (data', unret), w')
    | v :: _ =>
        exists e w1 w2,
          loop_ ids languages false proxies cookies preserve_formatting verify
            data unret w = (Raise e, w2) /\
          get_transcript_ v languages proxies cookies preserve_formatting verify
            (record (EvAttempt v) w1) = (Raise e, w2)
    end.
Proof.
  induction ids as [|x ids IH]; intros data unret w; simpl.
  - exists data, [], w. unfold ret. rewrite List.app_nil_r. auto.
  - destruct (get_transcript_ x languages proxies cookies preserve_formatting verify
                (record (EvAttempt x) w)) as [[t|e] w0] eqn:Hg.
    + apply IH.
    + simpl. destruct (IH data (unret ++ [x]) w0) as (data' & later & w' & Hrun & _).
      exists data', (x :: later), w'. split.
      * rewrite Hrun, <- List.app_assoc. reflexivity.
      * exists e, w, w0. auto.
Qed.

(** X5. continue_after_error matters only when a retrieval fails.  The
    call with true always returns; if its unretrievable list is empty, the
    call with false returns the same result and leaves the same world; if
    not, the call with false raises, and what it raises is the exception
    of the retrieval of the first unretrievable id. *)
Theorem continue_after_error_matters_on_failure_only (ids : list pyval)
    (languages : list string)
    (proxies : option (gmap string string)) (cookies : option string)
    (preserve_formatting : bool) (verify : option verify_setting) (w : world) :
  exists data unret w',
    get_transcripts_ (PyList ids) languages true proxies cookies
      preserve_formatting verify w = (Return (data, unret), w') /\
    match unret with
    | [] =>
        get_transcripts_ (PyList ids) languages false proxies cookies
          preserve_formatting verify w = (Return (data, []), w')
    | v :: _ =>
        exists e w1 w2,
          get_transcripts_ (PyList ids) languages false proxies cookies
            preserve_formatting verify w = (Raise e, w2) /\
          get_transcript_ v languages proxies cookies preserve_formatting verify
            (record (EvAttempt v) w1) = (Raise e, w2)
    end.
Proof.
  unfold get_transcripts, bind, assert_, ret. simpl.
  destruct (loop_modes ids languages proxies cookies preserve_formatting verify
              [] [] w) as (data & later & w' & Hrun & Hfalse).
  exists data, later, w'. auto.
Qed.

(** *** What the batch returns *)

Lemma loop_provenance (all : list pyval) ids languages continue_after_error proxies
    cookies preserve_formatting verify :
  forall data unret (w : world) data' unret' w',
    (forall x, x ∈ ids -> x ∈ all) ->
    (forall k t, (k, t) ∈ data ->
       isinstance_str k = true /\ k ∈ all /\
       exists w0 w1, get_transcript_ k languages proxies cookies preserve_formatting
                       verify w0 = (Return t, w1)) ->
    (forall v, v ∈ unret -> v ∈ all) ->
    loop_ ids languages continue_after_error proxies cookies preserve_formatting
      verify data unret w = (Return (data', unret'), w') ->
    (forall k t, (k, t) ∈ data' ->
       isinstance_str k = true /\ k ∈ all /\
       exists w0 w1, get_transcript_ k languages proxies cookies preserve_formatting
                       verify w0 = (Return t, w1)) /\
    (forall v, v ∈ unret' -> v ∈ all).
Proof.
  induction ids as [|x ids IH]; intros data unret w data' unret' w' Hall Hd Hu; simpl.
  - unfold ret. intros [= <- <- <-]. auto.
  - assert (Hx : x ∈ all) by (apply Hall; left).
    assert (Hrest : forall y, y ∈ ids -> y ∈ all) by (intros y Hy; apply Hall; now right).
    destruct (get_transcript_ x languages proxies cookies preserve_formatting verify
                (record (EvAttempt x) w)) as [[t|e] w0] eqn:Hg.
    + apply IH; [exact Hrest| |exact Hu].
      intros k t0 Hin. apply elem_of_dict_setitem in Hin as [[= -> ->]|Hin]; [|auto].
      split; [exact (get_transcript_returns_str _ _ _ _ _ _ _ _ _ Hg)|].
      split; [exact Hx|]. eauto.
    + destruct continue_after_error; simpl; [|discriminate].
      apply IH; [exact Hrest|exact Hd|].
      intros v Hv. apply elem_of_app in Hv as [Hv|Hv]; [auto|].
      apply list_elem_of_singleton in Hv as ->. exact Hx.
Qed.

(** X6. Whatever get_transcripts returns comes from its input: every key
    of the dictionary is a string of the input list, the value stored
    under it is a transcript that get_transcript returned for that very
    id, and every element of the unretrievable list is an element of the
    input list. *)
Theorem get_transcripts_provenance (ids : list pyval) (languages : list string)
    (continue_after_error : bool)
    (proxies : option (gmap string string)) (cookies : option string)
    (preserve_formatting : bool) (verify : option verify_setting)
    (w : world) data unret (w' : world) :
  get_transcripts_ (PyList ids) languages continue_after_error proxies cookies
    preserve_formatting verify w = (Return (data, unret), w') ->
  (forall k t, (k, t) ∈ data ->
     isinstance_str k = true /\ k ∈ ids /\
     exists w0 w1, get_transcript_ k languages proxies cookies preserve_formatting
                     verify w0 = (Return t, w1)) /\
  (forall v, v ∈ unret -> v ∈ ids).
Proof.
  unfold get_transcripts, bind, assert_, ret. simpl. intros H.
  apply (loop_provenance ids) in H; [exact H|auto| |];
    intros ? ? ; try intros ?; exfalso; eapply not_elem_of_nil; eassumption.
Qed.

Lemma loop_coverage ids languages proxies cookies preserve_formatting verify :
  forall data unret (w : world) data' unret' w',
    loop_ ids languages true proxies cookies preserve_formatting verify data unret w
      = (Return (data', unret'), w') ->
    (forall id, id ∈ dict_keys data -> id ∈ dict_keys data') /\
    (forall id, id ∈ unret -> id ∈ unret') /\
    (forall id, id ∈ ids -> id ∈ dict_keys data' \/ id ∈ unret') /\
    (forall id, id ∈ ids -> isinstance_str id = false -> id ∈ unret') /\
    length data' + length unret' <= length data + length unret + length ids.
Proof.
  induction ids as [|x ids IH]; intros data unret w data' unret' w'; simpl.
  - unfold ret. intros [= <- <- <-].
    repeat split; auto; try lia; intros id Hid; inversion Hid.
  - destruct (get_transcript_ x languages proxies cookies preserve_formatting verify
                (record (EvAttempt x) w)) as [[t|e] w0] eqn:Hg; intros H;
      apply IH in H as (Hk & Hu & Hc & Hn & Hlen).
    + pose proof (get_transcript_returns_str _ _ _ _ _ _ _ _ _ Hg) as Hstr.
      pose proof (dict_setitem_length x t data) as Hl.
      split; [intros id Hid; apply Hk, dict_keys_setitem; auto|].
      split; [exact Hu|]. split; [|split; [|lia]].
      * intros id Hid. apply elem_of_cons in Hid as [->|Hid]; [|auto].
        left. apply Hk, dict_keys_setitem. auto.
      * intros id Hid Hns. apply elem_of_cons in Hid as [->|Hid]; [congruence|auto].
    + rewrite length_app in Hlen. simpl in Hlen.
      assert (Hx : x ∈ unret').
      { apply Hu, elem_of_app. right. left. }
      split; [exact Hk|].
      split; [intros id Hid; apply Hu, elem_of_app; auto|].
      split; [|split; [|lia]].
      * intros id Hid. apply elem_of_cons in Hid as [->|Hid]; auto.
      * intros id Hid Hns. apply elem_of_cons in Hid as [->|Hid]; auto.
Qed.

(** X7. With continue_after_error true and on any list, repeated ids
    included, get_transcripts returns; every input id is a key of the
    dictionary or an element of the unretrievable list, every input
    element that is not a string is in the unretrievable list, and the
    two components together have no more entries than the input. *)
Theorem get_transcripts_coverage (ids : list pyval) (languages : list string)
    (proxies : option (gmap string string)) (cookies : option string)
    (preserve_formatting : bool) (verify : option verify_setting) (w : world) :
  exists data unret w',
    get_transcripts_ (PyList ids) languages true proxies cookies
      preserve_formatting verify w = (Return (data, unret), w') /\
    (forall id, id ∈ ids -> id ∈ dict_keys data \/ id ∈ unret) /\
    (forall id, id ∈ ids -> isinstance_str id = false -> id ∈ unret) /\
    length data + length unret <= length ids.
Proof.
  unfold get_transcripts, bind, assert_, ret. simpl.
  destruct (get_transcripts_loop_continue load list_fetch transcript_fetch ids
              languages proxies cookies preserve_formatting verify [] [] w)
    as (data & unret & w' & new & Hrun & _). simpl in Hrun.
  exists data, unret, w'. split; [exact Hrun|].
  apply loop_coverage in Hrun as (_ & _ & Hc & Hn & Hlen). simpl in Hlen. auto.
Qed.

(** *** What the batch asks of the outside *)



(** One retrieval under a cookie path whose load yields no usable jar:
    it raises, the environment is as before and no request is made. *)
Lemma get_transcript_bad_cookies video_id languages proxies cookies path
    preserve_formatting verify (w : world) :
  cookies_truthy cookies = Some path ->
  (forall jar, load path (env w) = inr jar -> jar = []) ->
  exists e w1 new,
    get_transcript_ video_id languages proxies cookies preserve_formatting verify w
      = (Raise e, w1) /\
    env w1 = env w /\ log w1 = log w ++ new /\ attempts new = [] /\
    list_fetches new = [] /\ transcript_fetches new = [].
Proof.
  intros Hc Hbad. destruct (isinstance_str video_id) eqn:E.
  - destruct video_id; try discriminate.
    rewrite get_transcript_str. unfold shortcut_composition.
    rewrite list_transcripts_run, Hc, _load_cookies_run.
    assert (Hjar : match load path (env w) with
                   | inl b => True
                   | inr jar => jar_truthy jar = false
                   end).
    { destruct (load path (env w)) as [b|jar]; [exact I|].
      rewrite (Hbad jar eq_refl). reflexivity. }
    destruct (load path (env w)) as [b|jar].
    + destruct (CookieLoadError b); eexists _, _, [EvLoadCookies path];
        (split; [reflexivity|]); simpl; auto.
    + rewrite Hjar. eexists _, _, [EvLoadCookies path].
      split; [reflexivity|]. simpl. auto.
  - rewrite get_transcript_not_str by exact E.
    eexists _, _, []. split; [reflexivity|]. rewrite List.app_nil_r. simpl. auto.
Qed.

Lemma loop_bad_cookies ids languages proxies cookies path preserve_formatting verify :
  cookies_truthy cookies = Some path ->
  forall data unret (w : world),
    (forall jar, load path (env w) = inr jar -> jar = []) ->
    exists w' new,
      loop_ ids languages true proxies cookies preserve_formatting verify data unret w
        = (Return (data, unret ++ ids), w') /\
      env w' = env w /\ log w' = log w ++ new /\ attempts new = ids /\
      list_fetches new = [] /\ transcript_fetches new = [].
Proof.
  intros Hc. induction ids as [|x ids IH]; intros data unret w Hbad; simpl.
  - exists w, []. unfold ret. rewrite !List.app_nil_r. repeat split; reflexivity.
  - destruct (get_transcript_bad_cookies x languages proxies cookies path
                preserve_formatting verify (record (EvAttempt x) w) Hc Hbad)
      as (e & w1 & new0 & Hg & Henv & Hlog0 & Hatt0 & Hlf0 & Htf0).
    rewrite Hg. simpl in Henv, Hlog0.
    assert (Hbad1 : forall jar, load path (env w1) = inr jar -> jar = []).
    { rewrite Henv. exact Hbad. }
    destruct (IH data (unret ++ [x]) w1 Hbad1)
      as (w' & new & Hrun & Henv' & Hlog & Hatt & Hlf & Htf).
    exists w', ([EvAttempt x] ++ new0 ++ new).
    split; [rewrite Hrun, <- List.app_assoc; reflexivity|].
    split; [congruence|].
    split; [rewrite Hlog, Hlog0, <- !List.app_assoc; reflexivity|].
    rewrite !attempts_app, !list_fetches_app, !transcript_fetches_app.
    rewrite Hatt0, Hatt, Hlf0, Hlf, Htf0, Htf. repeat split; reflexivity.
Qed.

(** X9. With continue_after_error true and a non-empty cookie path whose
    load yields no jar with a cookie in it, a call of get_transcripts makes
    no request at all: it returns the empty dictionary and the whole input
    list, in input order, as the unretrievable list. *)
Theorem get_transcripts_bad_cookies (ids : list pyval) (languages : list string)
    (proxies : option (gmap string string)) (cookies : option string) (path : string)
    (preserve_formatting : bool) (verify : option verify_setting) (w : world) :
  cookies_truthy cookies = Some path ->
  (forall jar, load path (env w) = inr jar -> jar = []) ->
  exists w' new,
    get_transcripts_ (PyList ids) languages true proxies cookies
      preserve_formatting verify w = (Return ([], ids), w') /\
    env w' = env w /\ log w' = log w ++ new /\ attempts new = ids /\
    list_fetches new = [] /\ transcript_fetches new = [].
Proof.
  intros Hc Hbad. unfold get_transcripts, bind, assert_, ret. simpl.
  exact (loop_bad_cookies ids languages proxies cookies path preserve_formatting
           verify Hc [] [] w Hbad).
Qed.

(** *** Repeated ids *)

Lemma loop_keeps_other_keys (k : pyval) ids languages continue_after_error proxies
    cookies preserve_formatting verify :
  k ∉ ids ->
  forall data unret (w : world) data' unret' w',
    loop_ ids languages continue_after_error proxies cookies preserve_formatting
      verify data unret w = (Return (data', unret'), w') ->
    dict_get k data' = dict_get k data.
Proof.
  induction ids as [|x ids IH]; intros Hk data unret w data' unret' w'; simpl.
  - unfold ret. intros [= <- <- <-]. reflexivity.
  - apply not_elem_of_cons in Hk as [Hne Hk].
    destruct (get_transcript_ x languages proxies cookies preserve_formatting verify
                (record (EvAttempt x) w)) as [[t|e] w0].
    + intros H. rewrite (IH Hk _ _ _ _ _ _ H).
      apply dict_get_setitem_ne. congruence.
    + destruct continue_after_error; simpl; [|discriminate]. apply (IH Hk).
Qed.

(** X10. When an id occurs several times in the input, the dictionary
    holds the transcript of its last occurrence: if the retrieval at some
    position returns a transcript and the id does not occur later in the
    list, then the dictionary that get_transcripts returns maps the id to
    that transcript, whatever earlier occurrences gave. *)
Theorem get_transcripts_last_retrieval_wins (pre : list pyval) (video_id : pyval)
    (post : list pyval) (languages : list string) (continue_after_error : bool)
    (proxies : option (gmap string string)) (cookies : option string)
    (preserve_formatting : bool) (verify : option verify_setting)
    (w : world) data1 unret1 (w1 : world) (t : Cues) (w2 : world)
    data unret (w' : world) :
  video_id ∉ post ->
  get_transcripts_ (PyList pre) languages continue_after_error proxies cookies
    preserve_formatting verify w = (Return (data1, unret1), w1) ->
  get_transcript_ video_id languages proxies cookies preserve_formatting verify
    (record (EvAttempt video_id) w1) = (Return t, w2) ->
  get_transcripts_ (PyList (pre ++ video_id :: post)) languages continue_after_error
    proxies cookies preserve_formatting verify w = (Return (data, unret), w') ->
  dict_get video_id data = Some t.
Proof.
  unfold get_transcripts, bind, assert_, ret. simpl.
  intros Hpost Hpre Hg.
  rewrite (get_transcripts_loop_app load list_fetch transcript_fetch
             _ (video_id :: post) _ _ _ _ _ _ _ _ _ _ _ _ Hpre).
  simpl. rewrite Hg. intros H.
  rewrite (loop_keeps_other_keys _ _ _ _ _ _ _ _ Hpost _ _ _ _ _ _ H).
  apply dict_get_setitem_eq.
Qed.

(** *** The order of the failures *)

Lemma failing_ids_sublist ids languages proxies cookies preserve_formatting verify :
  forall w : world,
    failing_ids_ ids languages proxies cookies preserve_formatting verify w
      `sublist_of` ids.
Proof.
  induction ids as [|x ids IH]; intros w; simpl; [constructor|].
  destruct (get_transcript_ x languages proxies cookies preserve_formatting verify
              (record (EvAttempt x) w)) as [[t|e] w0].
  - apply sublist_cons, IH.
  - apply sublist_skip, IH.
Qed.

Lemma failing_ids_raised ids languages proxies cookies preserve_formatting verify :
  forall (w : world) v,
    v ∈ failing_ids_ ids languages proxies cookies preserve_formatting verify w ->
    exists w0 e w1,
      get_transcript_ v languages proxies cookies preserve_formatting verify
        (record (EvAttempt v) w0) = (Raise e, w1).
Proof.
  induction ids as [|x ids IH]; intros w v; simpl; [intros H; inversion H|].
  destruct (get_transcript_ x languages proxies cookies preserve_formatting verify
              (record (EvAttempt x) w)) as [[t|e] w0] eqn:Hg.
  - apply IH.
  - intros H. apply elem_of_cons in H as [->|H]; [eauto | exact (IH _ _ H)].
Qed.

(** X11. With continue_after_error true and on any list, the
    unretrievable list is a subsequence of the input list, so failures
    keep the order and the multiplicity they have in the input, and every
    id in it is one whose retrieval raised during the run. *)
Theorem get_transcripts_unretrievable_order (ids : list pyval)
    (languages : list string)
    (proxies : option (gmap string string)) (cookies : option string)
    (preserve_formatting : bool) (verify : option verify_setting) (w : world) :
  exists data unret w',
    get_transcripts_ (PyList ids) languages true proxies cookies
      preserve_formatting verify w = (Return (data, unret), w') /\
    unret `sublist_of` ids /\
    forall v, v ∈ unret ->
      exists w0 e w1,
        get_transcript_ v languages proxies cookies preserve_formatting verify
          (record (EvAttempt v) w0) = (Raise e, w1).
Proof.
  unfold get_transcripts, bind, assert_, ret. simpl.
  destruct (get_transcripts_loop_continue load list_fetch transcript_fetch ids
              languages proxies cookies preserve_formatting verify [] [] w)
    as (data & unret & w' & new & Hrun & _). simpl in Hrun.
  exists data, unret, w'. split; [exact Hrun|].
  apply get_transcripts_loop_failing in Hrun. simpl in Hrun. subst unret.
  split; [apply failing_ids_sublist|]. apply failing_ids_raised.
Qed.

End BatchFacts.

(** ** The further properties on the concrete world *)

Lemma get_transcript_cookie_failure_witness :
  cookies_truthy (Some "garbage.txt") = Some "garbage.txt" /\
  (forall jar, demo_load "garbage.txt" (env demo_world) = inr jar -> jar = []) /\
  get_transcript demo_load demo_list_fetch demo_transcript_fetch demo_video ["en"]
    None (Some "garbage.txt") false None demo_world =
    (Raise (CookiePathInvalid demo_video),
     record (EvLoadCookies "garbage.txt") demo_world).
Proof.
  assert (H1 : cookies_truthy (Some "garbage.txt") = Some "garbage.txt") by reflexivity.
  assert (H2 : forall jar,
             demo_load "garbage.txt" (env demo_world) = inr jar -> jar = []).
  { intros jar H. vm_compute in H. discriminate. }
  split; [exact H1|]. split; [exact H2|].
  exact (get_transcript_cookie_failure demo_load demo_list_fetch demo_transcript_fetch
           "GJLlxj_dtq8" ["en"] None (Some "garbage.txt") "garbage.txt" false None
           demo_world H1 H2).
Defined.

Lemma empty_arguments_as_omitted_witness :
  let lt := list_transcripts demo_load demo_list_fetch in
  let gt := get_transcript demo_load demo_list_fetch demo_transcript_fetch in
  let gts := get_transcripts demo_load demo_list_fetch demo_transcript_fetch in
  let ids := PyList [demo_video; PyStr "removed"] in
  proxies_truthy (Some ∅) = false /\
  cookies_truthy (Some "") = None /\
  lt demo_video (Some ∅) (Some "") None demo_world =
    lt demo_video None None None demo_world /\
  gt demo_video ["en"] (Some ∅) (Some "") false None demo_world =
    gt demo_video ["en"] None None false None demo_world /\
  gts ids ["en"] true (Some ∅) (Some "") false None demo_world =
    gts ids ["en"] true None None false None demo_world.
Proof.
  intros lt gt gts ids.
  assert (H1 : proxies_truthy (Some ∅) = false) by reflexivity.
  assert (H2 : cookies_truthy (Some "") = None) by reflexivity.
  split; [exact H1|]. split; [exact H2|].
  exact (empty_arguments_as_omitted demo_load demo_list_fetch demo_transcript_fetch
           demo_video ids ["en"] true (Some ∅) (Some "") false None demo_world H1 H2).
Defined.

Lemma get_transcripts_provenance_witness :
  let gt := get_transcript demo_load demo_list_fetch demo_transcript_fetch in
  let ids := [demo_video; PyInt 7; demo_video] in
  let run := get_transcripts demo_load demo_list_fetch demo_transcript_fetch
               (PyList ids) ["en"] true None None false None demo_world in
  let data := [(demo_video, ["English"; "Hey, this is just a test"])] in
  run = (Return (data, [PyInt 7]), snd run) /\
  (forall k t, (k, t) ∈ data ->
     isinstance_str k = true /\ k ∈ ids /\
     exists w0 w1, gt k ["en"] None None false None w0 = (Return t, w1)) /\
  (forall v, v ∈ [PyInt 7] -> v ∈ ids).
Proof.
  intros gt ids run data.
  assert (H : run = (Return (data, [PyInt 7]), snd run)) by reflexivity.
  split; [exact H|].
  exact (get_transcripts_provenance demo_load demo_list_fetch demo_transcript_fetch
           ids ["en"] true None None false None demo_world data [PyInt 7] (snd run) H).
Defined.

Lemma get_transcripts_bad_cookies_witness :
  let ids := [demo_video; PyInt 7; PyStr "removed"] in
  cookies_truthy (Some "expired.txt") = Some "expired.txt" /\
  (forall jar, demo_load "expired.txt" (env demo_world) = inr jar -> jar = []) /\
  exists w' new,
    get_transcripts demo_load demo_list_fetch demo_transcript_fetch (PyList ids)
      ["en"] true None (Some "expired.txt") false None demo_world =
      (Return ([], ids), w') /\
    env w' = env demo_world /\ log w' = log demo_world ++ new /\
    attempts new = ids /\ list_fetches new = [] /\ transcript_fetches new = [].
Proof.
  intros ids.
  assert (H1 : cookies_truthy (Some "expired.txt") = Some "expired.txt") by reflexivity.
  assert (H2 : forall jar,
             demo_load "expired.txt" (env demo_world) = inr jar -> jar = []).
  { intros jar H. vm_compute in H. injection H as <-. reflexivity. }
  split; [exact H1|]. split; [exact H2|].
  exact (get_transcripts_bad_cookies demo_load demo_list_fetch demo_transcript_fetch
           ids ["en"] None (Some "expired.txt") "expired.txt" false None demo_world
           H1 H2).
Defined.

Lemma get_transcripts_last_retrieval_wins_witness :
  let gt := get_transcript demo_load demo_list_fetch demo_transcript_fetch_takes in
  let gts := get_transcripts demo_load demo_list_fetch demo_transcript_fetch_takes in
  let pre := [demo_video; PyStr "removed"] in
  let first := gts (PyList pre) ["en"] true None None false None demo_world in
  let again := gt demo_video ["en"] None None false None
                 (record (EvAttempt demo_video) (snd first)) in
  let whole := gts (PyList (pre ++ demo_video :: [PyInt 7])) ["en"] true None None
                 false None demo_world in
  (demo_video ∉ [PyInt 7]) /\
  first = (Return ([(demo_video, ["English"; "take 1"])], [PyStr "removed"]),
           snd first) /\
  again = (Return ["English"; "take 2"], snd again) /\
  whole = (Return ([(demo_video, ["English"; "take 2"])], [PyStr "removed"; PyInt 7]),
           snd whole) /\
  dict_get demo_video [(demo_video, ["English"; "take 2"])] =
    Some ["English"; "take 2"].
Proof.
  intros gt gts pre first again whole.
  assert (H0 : demo_video ∉ [PyInt 7]).
  { intros H. apply elem_of_cons in H as [H|H]; [discriminate | inversion H]. }
  assert (H1 : first = (Return ([(demo_video, ["English"; "take 1"])],
                                [PyStr "removed"]), snd first)) by reflexivity.
  assert (H2 : again = (Return ["English"; "take 2"], snd again)) by reflexivity.
  assert (H3 : whole = (Return ([(demo_video, ["English"; "take 2"])],
                                [PyStr "removed"; PyInt 7]), snd whole))
    by reflexivity.
  split; [exact H0|]. split; [exact H1|]. split; [exact H2|]. split; [exact H3|].
  exact (get_transcripts_last_retrieval_wins demo_load demo_list_fetch
           demo_transcript_fetch_takes pre demo_video [PyInt 7] ["en"] true None None
           false None demo_world _ _ (snd first) _ (snd again) _ _ (snd whole)
           H0 H1 H2 H3).
Defined.
